(** * Warehouse inventory chain: a shallow embedding of
      [warehouse_invetory_chain.py] and its verified properties.

    The file follows the layout of the Python module: first the runtime
    services the module calls ([hashlib.sha256], [json.dumps], [int],
    [str] of a [datetime]), then [Block], [Blockchain], the part of
    [InventoryApp] that submits adjustments, and finally the theorems. *)

From Stdlib Require Import ZArith QArith Qround Ascii.
From stdpp Require Import gmap strings list fin_maps pretty sorting finite.

Local Open Scope Z_scope.
Set Warnings "-register-all".

(** * Part I: the program *)

(** ** [hashlib.sha256(...).hexdigest()] (FIPS 180-4) *)

Module SHA256.

Definition mask32 : Z := 0xffffffff.
Definition w32 (x : Z) : Z := Z.land x mask32.
Definition add32 (x y : Z) : Z := w32 (x + y).
Definition rotr (n x : Z) : Z :=
  Z.lor (Z.shiftr x n) (w32 (Z.shiftl x (32 - n))).
Definition shr (n x : Z) : Z := Z.shiftr x n.
Definition lnot32 (x : Z) : Z := Z.lxor x mask32.

Definition Ch (x y z : Z) : Z :=
  Z.lxor (Z.land x y) (Z.land (lnot32 x) z).
Definition Maj (x y z : Z) : Z :=
  Z.lxor (Z.lxor (Z.land x y) (Z.land x z)) (Z.land y z).
Definition bsig0 (x : Z) : Z :=
  Z.lxor (Z.lxor (rotr 2 x) (rotr 13 x)) (rotr 22 x).
Definition bsig1 (x : Z) : Z :=
  Z.lxor (Z.lxor (rotr 6 x) (rotr 11 x)) (rotr 25 x).
Definition ssig0 (x : Z) : Z :=
  Z.lxor (Z.lxor (rotr 7 x) (rotr 18 x)) (shr 3 x).
Definition ssig1 (x : Z) : Z :=
  Z.lxor (Z.lxor (rotr 17 x) (rotr 19 x)) (shr 10 x).

(** The constants are derived as the standard defines them: the first
    32 bits of the fractional parts of the square roots of the first 8
    primes, and of the cube roots of the first 64 primes. *)
Definition is_prime (p : nat) : bool :=
  forallb (λ d, negb (p mod d =? 0)%nat) (seq 2 (p - 2)).

Definition primes (count : nat) : list Z :=
  map Z.of_nat (take count (filter (λ p, is_prime p = true) (seq 2 400))).

(** Largest [r] with [r^3 <= n], for [n < 2^120]. *)
Definition cube_root (n : Z) : Z :=
  fold_left (λ r (i : nat),
               let r' := r + 2 ^ Z.of_nat i in
               if r' * r' * r' <=? n then r' else r)
            (rev (seq 0 40)) 0.

Definition H0 : list Z :=
  Eval vm_compute in map (λ p, w32 (Z.sqrt (p * 2 ^ 64))) (primes 8).

Definition K : list Z :=
  Eval vm_compute in map (λ p, w32 (cube_root (p * 2 ^ 96))) (primes 64).

(** Padding: a [0x80] byte, zero bytes up to 56 modulo 64, then the
    bit length of the message as a 64-bit big-endian integer. *)
Definition be_bytes (n : nat) (x : Z) : list Z :=
  map (λ i : nat, Z.land (Z.shiftr x (8 * Z.of_nat i)) 0xff) (rev (seq 0 n)).

Definition pad (msg : list Z) : list Z :=
  let len := Z.of_nat (length msg) in
  let zeros := Z.to_nat ((55 - len) mod 64) in
  msg ++ [0x80] ++ replicate zeros 0 ++ be_bytes 8 (8 * len).

Fixpoint be_words (bs : list Z) : list Z :=
  match bs with
  | b0 :: b1 :: b2 :: b3 :: rest =>
      (Z.shiftl b0 24 + Z.shiftl b1 16 + Z.shiftl b2 8 + b3) :: be_words rest
  | _ => []
  end.

Fixpoint chunks (n : nat) (ws : list Z) : list (list Z) :=
  match n with
  | O => []
  | S n' => take 16 ws :: chunks n' (drop 16 ws)
  end.

Definition at_ (ws : list Z) (i : nat) : Z := nth i ws 0.

(** One round. [win] holds W[t] .. W[t+15]; the working variables
    a..h are kept as a tuple. *)
Definition state : Type := (Z * Z * Z * Z * Z * Z * Z * Z)%type.

Definition round (st : state * list Z) (k : Z) : state * list Z :=
  let '((a, b, c, d, e, f, g, h), win) := st in
  let wt := at_ win 0 in
  let t1 := add32 (add32 (add32 (add32 h (bsig1 e)) (Ch e f g)) k) wt in
  let t2 := add32 (bsig0 a) (Maj a b c) in
  let next := add32 (add32 (add32 (ssig1 (at_ win 14)) (at_ win 9))
                           (ssig0 (at_ win 1))) wt in
  ((add32 t1 t2, a, b, c, add32 d t1, e, f, g), drop 1 win ++ [next]).

Definition compress (hs : list Z) (block : list Z) : list Z :=
  let init := (at_ hs 0, at_ hs 1, at_ hs 2, at_ hs 3,
               at_ hs 4, at_ hs 5, at_ hs 6, at_ hs 7) in
  let '((a, b, c, d, e, f, g, h), _) := fold_left round K (init, block) in
  [ add32 (at_ hs 0) a; add32 (at_ hs 1) b; add32 (at_ hs 2) c;
    add32 (at_ hs 3) d; add32 (at_ hs 4) e; add32 (at_ hs 5) f;
    add32 (at_ hs 6) g; add32 (at_ hs 7) h ].

Definition digest_words (msg : list Z) : list Z :=
  let ws := be_words (pad msg) in
  fold_left compress (chunks (length ws / 16)%nat ws) H0.

Definition hex_digit (x : Z) : ascii :=
  ascii_of_N (Z.to_N (if x <? 10 then 48 + x else 87 + x)).

Definition hex_word (x : Z) : string :=
  fold_right (λ (i : nat) s,
      String (hex_digit (Z.land (Z.shiftr x (4 * Z.of_nat i)) 0xf)) s)
    EmptyString (rev (seq 0 8)).

Definition bytes_of_string (s : string) : list Z :=
  map (λ c, Z.of_N (N_of_ascii c)) (String.list_ascii_of_string s).

Definition hexdigest (s : string) : string :=
  fold_right (λ wd acc, hex_word wd +:+ acc) EmptyString
    (digest_words (bytes_of_string s)).

End SHA256.

(** ** Python values

    The values a transaction or a block payload can hold, restricted to
    those [json.dumps] serialises with string keys: [None], [bool],
    [int], [float], [str], [list] and [dict]. A [str] is a sequence of
    code points below 256; a [dict] is kept in insertion order with
    pairwise distinct keys and is read by its first matching key. *)

(** A binary64 float: signed zero, [(-1)^neg * m * 2^e], an infinity or
    NaN. A finite value is expected to be one binary64 can hold
    ([m < 2^53] after removing trailing zero bits, exponent in range);
    the same value may be written with several [(m, e)] pairs. A NaN
    is unequal to every float, itself included, and Python tells NaN
    objects apart only by identity; [obj] names the object, so that two
    occurrences are the same object exactly when their names agree. *)
Inductive float : Type :=
  | FZero (neg : bool)
  | FFinite (neg : bool) (m : positive) (e : Z)
  | FInf (neg : bool)
  | FNaN (obj : positive).

Inductive value : Type :=
  | VNone
  | VBool (b : bool)
  | VInt (n : Z)
  | VFloat (f : float)
  | VStr (s : string)
  | VList (items : list value)
  | VDict (entries : list (string * value)).

Inductive exn : Type := ValueError | TypeError | OverflowError | IndexError.

(** Outcome of a Python expression that may raise. *)
Inductive result (A : Type) : Type :=
  | Ok (a : A)
  | Raise (e : exn).
Arguments Ok {A} a.
Arguments Raise {A} e.

#[global] Instance result_ret : MRet result := λ A, Ok.
#[global] Instance result_bind : MBind result := λ A B k r,
  match r with Ok a => k a | Raise e => Raise e end.

#[global] Instance float_eq_dec : EqDecision float.
Proof. solve_decision. Defined.
#[global] Instance exn_eq_dec : EqDecision exn.
Proof. solve_decision. Defined.

(** [key in d] and [d[key]] for a dict. *)
Fixpoint dict_get (entries : list (string * value)) (key : string) : option value :=
  match entries with
  | [] => None
  | (k, v) :: rest => if String.eqb k key then Some v else dict_get rest key
  end.

(** *** [int(x)]

    For a string: surrounding white space, an optional sign, decimal
    digits with single underscores between them. The interpreter's
    optional cap on the number of digits is not modelled. *)

Module PyInt.

Definition is_space (c : ascii) : bool :=
  let n := N_of_ascii c in
  ((9 <=? n) && (n <=? 13) || (n =? 32) || (n =? 133) || (n =? 160))%N.

Definition digit_of (c : ascii) : option Z :=
  let n := Z.of_N (N_of_ascii c) in
  if (48 <=? n) && (n <=? 57) then Some (n - 48) else None.

Fixpoint lstrip (s : list ascii) : list ascii :=
  match s with
  | c :: rest => if is_space c then lstrip rest else s
  | [] => []
  end.

Definition strip (s : list ascii) : list ascii :=
  rev (lstrip (rev (lstrip s))).

(** Digits with single underscores between them; [after_digit] tells
    whether the previous character was a digit. *)
Fixpoint digits (acc : Z) (after_digit : bool) (s : list ascii) : option Z :=
  match s with
  | [] => if after_digit then Some acc else None
  | c :: rest =>
      match digit_of c with
      | Some d => digits (10 * acc + d) true rest
      | None =>
          if Ascii.eqb c "_" && after_digit
          then match rest with
               | [] => None
               | _ => digits acc false rest
               end
          else None
      end
  end.

Definition of_string (s : string) : option Z :=
  match strip (String.list_ascii_of_string s) with
  | "-"%char :: rest => Z.opp <$> digits 0 false rest
  | "+"%char :: rest => digits 0 false rest
  | rest => digits 0 false rest
  end.

(** Truncation toward zero of [m * 2^e]. *)
Definition trunc (neg : bool) (m : positive) (e : Z) : Z :=
  let mag := if 0 <=? e then Z.shiftl (Z.pos m) e
             else Z.shiftr (Z.pos m) (- e) in
  if neg then - mag else mag.

Definition of_float (f : float) : result Z :=
  match f with
  | FZero _ => Ok 0
  | FFinite neg m e => Ok (trunc neg m e)
  | FInf _ => Raise OverflowError
  | FNaN _ => Raise ValueError
  end.

End PyInt.

Definition py_int (v : value) : result Z :=
  match v with
  | VInt n => Ok n
  | VBool b => Ok (if b then 1 else 0)
  | VFloat f => PyInt.of_float f
  | VStr s => match PyInt.of_string s with
              | Some n => Ok n
              | None => Raise ValueError
              end
  | VNone | VList _ | VDict _ => Raise TypeError
  end.

(** *** [repr(x)] of a float

  The shortest decimal string that reads back as the same binary64
  value, laid out as [float.__repr__] does. *)

Module FloatRepr.

Definition pow2 (e : Z) : Q := Qpower 2 e.
Definition pow10 (e : Z) : Q := Qpower 10 e.

(** Mantissa and exponent with the mantissa shifted into
    [2^52, 2^53) where the exponent range allows it. *)
Definition normalise (m : positive) (e : Z) : Z * Z :=
  let bits := Z.log2 (Z.pos m) + 1 in
  let e' := Z.max (e - (53 - bits)) (-1074) in
  (Z.shiftl (Z.pos m) (e - e'), e').

(** The interval of reals that round to [m * 2^e], and whether its
    end points are included (ties go to the even mantissa). *)
Definition rounding_interval (m : positive) (e : Z) : Q * Q * bool :=
  let '(M, E) := normalise m e in
  let v := (inject_Z M * pow2 E)%Q in
  let above := pow2 (E - 1) in
  let below := if (M =? 2 ^ 52) && (-1074 <? E)
               then pow2 (E - 2) else pow2 (E - 1) in
  ((v - below)%Q, (v + above)%Q, Z.even M).

Definition inside (iv : Q * Q * bool) (x : Q) : bool :=
  let '(lo, hi, closed) := iv in
  if closed then Qle_bool lo x && Qle_bool x hi
  else negb (Qle_bool x lo) && negb (Qle_bool hi x).

Definition num_digits (n : Z) : Z := Z.of_nat (String.length (pretty n)).

(** [decpt v] is the [k] with [10^(k-1) <= v < 10^k]. *)
Definition decpt (v : Q) : Z :=
  let guess := if Qle_bool 1 v then num_digits (Qfloor v)
               else 1 - num_digits (Qfloor (/ v)%Q) in
  if Qle_bool (pow10 guess) v then guess + 1
  else if Qle_bool (pow10 (guess - 1)) v then guess
  else guess - 1.

(** The best [n]-digit candidate [d * 10^(k-n)] inside the interval,
    if there is one. *)
Definition candidate (iv : Q * Q * bool) (v : Q) (k : Z) (n : Z) : option Z :=
  let scale := pow10 (k - n) in
  let lo := Qfloor (v / scale)%Q in
  let hi := lo + 1 in
  let in_lo := inside iv (inject_Z lo * scale)%Q in
  let in_hi := inside iv (inject_Z hi * scale)%Q in
  let dlo := (v - inject_Z lo * scale)%Q in
  let dhi := (inject_Z hi * scale - v)%Q in
  match in_lo, in_hi with
  | true, true =>
      if Qeq_bool dlo dhi then Some (if Z.even lo then lo else hi)
      else if Qle_bool dlo dhi then Some lo else Some hi
  | true, false => Some lo
  | false, true => Some hi
  | false, false => None
  end.

Fixpoint shortest (fuel : nat) (iv : Q * Q * bool) (v : Q) (k n : Z) : Z * Z :=
  match candidate iv v k n, fuel with
  | Some d, _ => (d, n)
  | None, S fuel' => shortest fuel' iv v k (n + 1)
  | None, O => (Qfloor (v / pow10 (k - n))%Q, n)
  end.

Fixpoint strip_zeros (fuel : nat) (d : Z) : Z :=
  match fuel with
  | S fuel' => if d mod 10 =? 0 then strip_zeros fuel' (d / 10) else d
  | O => d
  end.

Definition zeros (n : Z) : string :=
  String.concat "" (replicate (Z.to_nat n) "0"%string).

Definition substr (from len : Z) (s : string) : string :=
  String.substring (Z.to_nat from) (Z.to_nat len) s.

(** Digits and decimal point position of [m * 2^e]:
    the value is [0.digits * 10^point]. *)
Definition digits (m : positive) (e : Z) : string * Z :=
  let v := (inject_Z (Z.pos m) * pow2 e)%Q in
  let k := decpt v in
  let '(d, n) := shortest 17 (rounding_interval m e) v k 1 in
  let k' := if d =? 10 ^ n then k + 1 else k in
  (pretty (strip_zeros 17 d), k').

Definition layout (ds : string) (point : Z) : string :=
  let nd := Z.of_nat (String.length ds) in
  if (point <=? -4) || (16 <? point) then
    let ex := point - 1 in
    substr 0 1 ds
    +:+ (if 1 <? nd then "." +:+ substr 1 (nd - 1) ds else "")
    +:+ "e" +:+ (if ex <? 0 then "-" else "+")
    +:+ (if Z.abs ex <? 10 then "0" else "") +:+ pretty (Z.abs ex)
  else if point <=? 0 then "0." +:+ zeros (- point) +:+ ds
  else if point <? nd then
    substr 0 point ds +:+ "." +:+ substr point (nd - point) ds
  else ds +:+ zeros (point - nd) +:+ ".0".

Definition sign (neg : bool) : string := if neg then "-" else "".

Definition repr (f : float) : string :=
  match f with
  | FZero neg => sign neg +:+ "0.0"
  | FFinite neg m e => let '(ds, point) := digits m e in
                       sign neg +:+ layout ds point
  | FInf neg => sign neg +:+ "inf"
  | FNaN _ => "nan"
  end.

End FloatRepr.

(** *** [json.dumps(x, sort_keys=True)]

  Default separators, [ensure_ascii=True] and [allow_nan=True]. *)

Module Json.

Definition dquote : string := String (ascii_of_N 34) EmptyString.
Definition backslash : string := String (ascii_of_N 92) EmptyString.

Definition hex2 (n : Z) : string :=
  String (SHA256.hex_digit (n / 16)) (String (SHA256.hex_digit (n mod 16)) "").

Definition escape (c : ascii) : string :=
  let n := Z.of_N (N_of_ascii c) in
  if n =? 34 then backslash +:+ dquote
  else if n =? 92 then backslash +:+ backslash
  else if n =? 10 then backslash +:+ "n"
  else if n =? 13 then backslash +:+ "r"
  else if n =? 9 then backslash +:+ "t"
  else if n =? 8 then backslash +:+ "b"
  else if n =? 12 then backslash +:+ "f"
  else if (32 <=? n) && (n <=? 126) then String c ""
  else backslash +:+ "u00" +:+ hex2 n.

Definition encode_str (s : string) : string :=
  dquote
  +:+ String.concat "" (map escape (String.list_ascii_of_string s))
  +:+ dquote.

Definition encode_float (f : float) : string :=
  match f with
  | FInf false => "Infinity"
  | FInf true => "-Infinity"
  | FNaN _ => "NaN"
  | _ => FloatRepr.repr f
  end.

(** [sorted(items)] on the already rendered [(key, text)] pairs. *)
Fixpoint insert_item (kv : string * string) (sorted : list (string * string))
  : list (string * string) :=
  match sorted with
  | [] => [kv]
  | kv' :: rest =>
      if String.leb kv.1 kv'.1 then kv :: sorted
      else kv' :: insert_item kv rest
  end.

Definition sort_items (items : list (string * string)) : list (string * string) :=
  foldr insert_item [] items.

Fixpoint dumps (v : value) : string :=
  match v with
  | VNone => "null"
  | VBool true => "true"
  | VBool false => "false"
  | VInt n => pretty n
  | VFloat f => encode_float f
  | VStr s => encode_str s
  | VList items => "[" +:+ String.concat ", " (map dumps items) +:+ "]"
  | VDict entries =>
      "{"
      +:+ String.concat ", "
            (map (λ kv : string * string, encode_str kv.1 +:+ ": " +:+ kv.2)
                 (sort_items (map (λ '(k, x), (k, dumps x)) entries)))
      +:+ "}"
  end.

End Json.

(** ** [str(datetime)] for a naive [datetime.datetime] *)

Record datetime : Type := mkDatetime {
  year : Z; month : Z; day : Z;
  hour : Z; minute : Z; second : Z; microsecond : Z
}.

Definition zero_pad (width : nat) (n : Z) : string :=
  let s := pretty n in
  String.concat "" (replicate (width - String.length s) "0"%string) +:+ s.

Definition str_datetime (t : datetime) : string :=
  zero_pad 4 (year t) +:+ "-" +:+ zero_pad 2 (month t) +:+ "-"
  +:+ zero_pad 2 (day t) +:+ " " +:+ zero_pad 2 (hour t) +:+ ":"
  +:+ zero_pad 2 (minute t) +:+ ":" +:+ zero_pad 2 (second t)
  +:+ (if microsecond t =? 0 then "" else "." +:+ zero_pad 6 (microsecond t)).

#[global] Instance datetime_eq_dec : EqDecision datetime.
Proof. solve_decision. Defined.

(** ** [class Block] *)

Record Block : Type := mkBlock {
  index : Z;
  timestamp : datetime;
  transactions : value;
  previous_hash : string;
  nonce : Z;
  hash : string
}.

Definition set_nonce (n : Z) (b : Block) : Block :=
  mkBlock (index b) (timestamp b) (transactions b) (previous_hash b) n (hash b).
Definition set_hash (h : string) (b : Block) : Block :=
  mkBlock (index b) (timestamp b) (transactions b) (previous_hash b) (nonce b) h.
Definition set_transactions (t : value) (b : Block) : Block :=
  mkBlock (index b) (timestamp b) t (previous_hash b) (nonce b) (hash b).

(** [s * n] for a string [s]; empty when [n <= 0]. *)
Definition str_mul (s : string) (n : Z) : string :=
  String.concat "" (replicate (Z.to_nat n) s).

Definition startswith (s target : string) : bool := String.prefix target s.

(** [Block.calculate_hash] *)
Definition calculate_hash (self : Block) : string :=
  let block_string :=
    Json.dumps (VDict [ ("index", VInt (index self));
                        ("timestamp", VStr (str_datetime (timestamp self)));
                        ("transactions", transactions self);
                        ("previous_hash", VStr (previous_hash self));
                        ("nonce", VInt (nonce self)) ]) in
  SHA256.hexdigest block_string.

(** [Block.__init__], with [nonce=0] unless given. *)
Definition Block_init (index : Z) (timestamp : datetime) (transactions : value)
    (previous_hash : string) (nonce : Z) : Block :=
  let self := mkBlock index timestamp transactions previous_hash nonce "" in
  set_hash (calculate_hash self) self.

(** [Block.mine_block]. The [while] loop has no bound in the source;
    [fuel] bounds the number of iterations here and [None] means the
    bound was reached before the hash met the target. *)
Fixpoint mine_block (fuel : nat) (difficulty : Z) (self : Block) : option Block :=
  let target := str_mul "0" difficulty in
  if startswith (hash self) target then Some self
  else match fuel with
       | O => None
       | S fuel' =>
           let self := set_nonce (nonce self + 1) self in
           let self := set_hash (calculate_hash self) self in
           mine_block fuel' difficulty self
       end.

(** ** [class Blockchain] and its surroundings *)

Record Blockchain : Type := mkBlockchain {
  chain : list Block;
  pending_transactions : list value;
  difficulty : Z
}.

Inductive dialog : Type :=
  | showerror (title message : string)
  | showwarning (title message : string).

(** Keys of the inventory dict. Python finds a key by identity or by
    [==], so [1], [1.0] and [True] are one key: numbers with an integral
    value are [KNum], other floats are kept with an odd mantissa. A NaN
    is found by identity only: each NaN object is a key of its own. *)
Inductive key : Type :=
  | KNone
  | KNum (n : Z)
  | KFloat (f : float)
  | KStr (s : string).

#[global] Instance key_eq_dec : EqDecision key.
Proof. solve_decision. Defined.

Definition float_code (f : float)
    : bool * positive * Z + (bool + bool) + positive :=
  match f with
  | FFinite neg m e => inl (inl (neg, m, e))
  | FZero neg => inl (inr (inl neg))
  | FInf neg => inl (inr (inr neg))
  | FNaN obj => inr obj
  end.

Definition float_decode (c : bool * positive * Z + (bool + bool) + positive)
    : float :=
  match c with
  | inl (inl (neg, m, e)) => FFinite neg m e
  | inl (inr (inl neg)) => FZero neg
  | inl (inr (inr neg)) => FInf neg
  | inr obj => FNaN obj
  end.

#[global] Instance float_countable : Countable float.
Proof. apply (inj_countable' float_code float_decode). by intros []. Defined.

#[global] Instance key_countable : Countable key.
Proof.
  apply (inj_countable'
    (λ k, match k with
          | KNone => inl (inl ())
          | KNum n => inl (inr n)
          | KFloat f => inr (inl f)
          | KStr s => inr (inr s)
          end)
    (λ c, match c with
          | inl (inl _) => KNone
          | inl (inr n) => KNum n
          | inr (inl f) => KFloat f
          | inr (inr s) => KStr s
          end)).
  by intros [].
Defined.

(** What the widgets show. The text area holds a message, or the header
    and separator followed by the rows written so far, kept as the
    mapping they come from; the column layout of a row is not
    modelled. *)
Inductive display : Type :=
  | DisplayText (s : string)
  | DisplayTable (rows : gmap key Z).

(** [sorted(inventory.items())] compares the keys with [<]: strings with
    strings and numbers with numbers, while [None], a string and a
    number do not compare with one another. *)
Inductive key_kind : Type := KindNone | KindNumber | KindStr.

#[global] Instance key_kind_eq_dec : EqDecision key_kind.
Proof. solve_decision. Defined.

Definition kind_of (k : key) : key_kind :=
  match k with
  | KNone => KindNone
  | KNum _ | KFloat _ => KindNumber
  | KStr _ => KindStr
  end.

Definition sortable (inventory : gmap key Z) : bool :=
  match map_to_list inventory with
  | [] => true
  | (k, _) :: rest =>
      forallb (λ kv, bool_decide (kind_of kv.1 = kind_of k)) rest
  end.

(** [f"{item_id:<20} ..."] is refused by [None]; the other keys format. *)
Definition formats (k : key) : bool :=
  match k with KNone => false | _ => true end.

(** Everything the program can change: the [Blockchain] object, the
    chain pickled into [chain_file] ([None] while the file does not
    exist), the message boxes shown so far and the widgets of the
    window. Console output is not modelled. *)
Record World : Type := mkWorld {
  blockchain : Blockchain;
  disk : option (list Block);
  dialogs : list dialog;
  status_label : string;
  inventory_display : display;
  item_id_entry : string;
  quantity_entry : string
}.

Definition set_blockchain (bc : Blockchain) (w : World) : World :=
  mkWorld bc (disk w) (dialogs w) (status_label w) (inventory_display w)
          (item_id_entry w) (quantity_entry w).
Definition set_disk (d : option (list Block)) (w : World) : World :=
  mkWorld (blockchain w) d (dialogs w) (status_label w) (inventory_display w)
          (item_id_entry w) (quantity_entry w).
Definition add_dialog (d : dialog) (w : World) : World :=
  mkWorld (blockchain w) (disk w) (dialogs w ++ [d]) (status_label w)
          (inventory_display w) (item_id_entry w) (quantity_entry w).
Definition set_status_label (s : string) (w : World) : World :=
  mkWorld (blockchain w) (disk w) (dialogs w) s (inventory_display w)
          (item_id_entry w) (quantity_entry w).
Definition set_inventory_display (d : display) (w : World) : World :=
  mkWorld (blockchain w) (disk w) (dialogs w) (status_label w) d
          (item_id_entry w) (quantity_entry w).
Definition clear_entries (w : World) : World :=
  mkWorld (blockchain w) (disk w) (dialogs w) (status_label w)
          (inventory_display w) "" "".

Definition set_chain (c : list Block) (bc : Blockchain) : Blockchain :=
  mkBlockchain c (pending_transactions bc) (difficulty bc).
Definition set_pending_transactions (p : list value) (bc : Blockchain) : Blockchain :=
  mkBlockchain (chain bc) p (difficulty bc).

(** *** Methods as state transformers

    A call returns a value, raises, or exhausts the fuel given to the
    proof-of-work loop. *)
Inductive outcome (A : Type) : Type :=
  | Returns (a : A) (w : World)
  | Raises (e : exn) (w : World)
  | OutOfFuel.
Arguments Returns {A} a w.
Arguments Raises {A} e w.
Arguments OutOfFuel {A}.

Definition M (A : Type) : Type := World → outcome A.

#[global] Instance M_ret : MRet M := λ A a w, Returns a w.
#[global] Instance M_bind : MBind M := λ A B k m w,
  match m w with
  | Returns a w' => k a w'
  | Raises e w' => Raises e w'
  | OutOfFuel => OutOfFuel
  end.

Definition raise {A} (e : exn) : M A := λ w, Raises e w.
Definition read {A} (f : World → A) : M A := λ w, Returns (f w) w.
Definition update (f : World → World) : M unit := λ w, Returns () (f w).
Definition update_self (f : Blockchain → Blockchain) : M unit :=
  update (λ w, set_blockchain (f (blockchain w)) w).
Definition self_ {A} (f : Blockchain → A) : M A := read (λ w, f (blockchain w)).
Definition lift {A} (r : result A) : M A :=
  match r with Ok a => mret a | Raise e => raise e end.

(** [Blockchain.save_chain]: [pickle.dump(self.chain, f)]. Failures of
    the file system are not modelled, so the [except] branch is absent. *)
Definition save_chain : M unit :=
  c ← self_ chain;
  update (set_disk (Some c)).

(** [new_block.mine_block(self.difficulty)] run with [fuel]. *)
Definition run_mine_block (fuel : nat) (difficulty : Z) (b : Block) : M Block :=
  match mine_block fuel difficulty b with
  | Some b' => mret b'
  | None => λ _, OutOfFuel
  end.

(** [Blockchain.create_genesis_block]; [now] is what
    [datetime.datetime.now()] returns. *)
Definition create_genesis_block (now : datetime) (fuel : nat) : M unit :=
  let genesis_block := Block_init 0 now (VStr "Genesis Block") "0" 0 in
  d ← self_ difficulty;
  genesis_block ← run_mine_block fuel d genesis_block;
  update_self (λ self, set_chain (chain self ++ [genesis_block]) self).

(** [Blockchain.get_latest_block]: [self.chain[-1]]. *)
Definition get_latest_block : M Block :=
  c ← self_ chain;
  match last c with
  | Some b => mret b
  | None => raise IndexError
  end.

(** [Blockchain.add_transaction]. [str(item_id)] cannot raise on a
    [value], so only [int(change)] decides the [try] block. *)
Definition add_transaction (transaction : value) : M bool :=
  match transaction with
  | VDict entries =>
      match dict_get entries "item_id", dict_get entries "change" with
      | Some item_id, Some change =>
          match py_int change with
          | Raise ValueError => mret false
          | Raise TypeError => mret false
          | Raise e => raise e
          | Ok _ =>
              update_self (λ self,
                set_pending_transactions (pending_transactions self ++ [transaction]) self);;
              mret true
          end
      | _, _ => mret false
      end
  | _ => mret false
  end.

(** [Blockchain.mine_pending_transactions] *)
Definition mine_pending_transactions (now : datetime) (fuel : nat) : M bool :=
  pending ← self_ pending_transactions;
  match pending with
  | [] => mret false
  | _ =>
      latest_block ← get_latest_block;
      let new_block :=
        Block_init (index latest_block + 1) now (VList pending)
                   (hash latest_block) 0 in
      d ← self_ difficulty;
      new_block ← run_mine_block fuel d new_block;
      update_self (λ self, set_chain (chain self ++ [new_block]) self);;
      update_self (set_pending_transactions []);;
      save_chain;;
      mret true
  end.

(** The three checks [is_chain_valid] makes on [chain[i]] against
    [chain[i-1]], in the order of the source. *)
Definition check_block (difficulty : Z) (current_block previous_block : Block) : bool :=
  if negb (String.eqb (hash current_block) (calculate_hash current_block))
  then false
  else if negb (String.eqb (previous_hash current_block) (hash previous_block))
  then false
  else if negb (startswith (hash current_block) (str_mul "0" difficulty))
  then false
  else true.

(** [Blockchain.is_chain_valid]: [for i in range(1, len(self.chain))]. *)
Definition is_chain_valid (self : Blockchain) : bool :=
  forallb
    (λ i : nat,
       match chain self !! i, chain self !! (i - 1)%nat with
       | Some current_block, Some previous_block =>
           check_block (difficulty self) current_block previous_block
       | _, _ => false
       end)
    (seq 1 (length (chain self) - 1)).

(** The dict key a value hashes to; lists and dicts are unhashable. *)
Fixpoint odd_part (m : positive) : positive * Z :=
  match m with
  | xO p => let '(q, t) := odd_part p in (q, t + 1)
  | _ => (m, 0)
  end.

Definition float_key (f : float) : key :=
  match f with
  | FZero _ => KNum 0
  | FFinite neg m e =>
      let '(q, t) := odd_part m in
      if 0 <=? e + t then KNum (PyInt.trunc neg m e)
      else KFloat (FFinite neg q (e + t))
  | _ => KFloat f
  end.

Definition hash_key (v : value) : result key :=
  match v with
  | VNone => Ok KNone
  | VBool b => Ok (KNum (if b then 1 else 0))
  | VInt n => Ok (KNum n)
  | VFloat f => Ok (float_key f)
  | VStr s => Ok (KStr s)
  | VList _ | VDict _ => Raise TypeError
  end.

(** Body of the inner [for transaction in block_transactions] loop. *)
Definition apply_transaction (inventory : gmap key Z) (transaction : value)
    : result (gmap key Z) :=
  match transaction with
  | VDict entries =>
      match dict_get entries "item_id", dict_get entries "change" with
      | Some item_id, Some change =>
          change ← py_int change;
          k ← hash_key item_id;
          mret (<[k := default 0 (inventory !! k) + change]> inventory)
      | _, _ => mret inventory
      end
  | _ => mret inventory
  end.

Fixpoint apply_transactions (inventory : gmap key Z) (block_transactions : list value)
    : result (gmap key Z) :=
  match block_transactions with
  | [] => mret inventory
  | transaction :: rest =>
      inventory ← apply_transaction inventory transaction;
      apply_transactions inventory rest
  end.

(** Body of the outer [for block in self.chain[1:]] loop. *)
Definition apply_block (inventory : gmap key Z) (block : Block) : result (gmap key Z) :=
  match transactions block with
  | VDict entries => apply_transactions inventory [VDict entries]
  | VList block_transactions => apply_transactions inventory block_transactions
  | _ => mret inventory
  end.

Fixpoint apply_blocks (inventory : gmap key Z) (blocks : list Block)
    : result (gmap key Z) :=
  match blocks with
  | [] => mret inventory
  | block :: rest =>
      inventory ← apply_block inventory block;
      apply_blocks inventory rest
  end.

(** [Blockchain.get_inventory] *)
Definition get_inventory : M (option (gmap key Z)) :=
  valid ← self_ is_chain_valid;
  if negb valid then
    update (add_dialog (showerror "Error"
      "Blockchain is invalid! Inventory data may be corrupted."));;
    mret None
  else
    c ← self_ chain;
    inventory ← lift (apply_blocks ∅ (drop 1 c));
    mret (Some inventory).

(** [pickle.load] builds new objects: floats are not shared, so every
    NaN of the stored chain comes back as an object of its own. They
    are named in order of appearance. *)
Fixpoint unpickled_value (v : value) (next : positive) : value * positive :=
  match v with
  | VFloat (FNaN _) => (VFloat (FNaN next), Pos.succ next)
  | VList items =>
      let '(items', next') :=
        (fix go (l : list value) (n : positive) : list value * positive :=
           match l with
           | [] => ([], n)
           | x :: rest =>
               let '(x', n1) := unpickled_value x n in
               let '(rest', n2) := go rest n1 in
               (x' :: rest', n2)
           end) items next in
      (VList items', next')
  | VDict entries =>
      let '(entries', next') :=
        (fix go (l : list (string * value)) (n : positive)
             : list (string * value) * positive :=
           match l with
           | [] => ([], n)
           | (k, x) :: rest =>
               let '(x', n1) := unpickled_value x n in
               let '(rest', n2) := go rest n1 in
               ((k, x') :: rest', n2)
           end) entries next in
      (VDict entries', next')
  | _ => (v, next)
  end.

Fixpoint unpickled_from (next : positive) (stored : list Block) : list Block :=
  match stored with
  | [] => []
  | b :: rest =>
      let '(t, next') := unpickled_value (transactions b) next in
      set_transactions t b :: unpickled_from next' rest
  end.

Definition unpickled (stored : list Block) : list Block :=
  unpickled_from 1%positive stored.

(** [Blockchain.load_chain] for a file that exists and unpickles to
    [stored]; a file that cannot be read is not modelled. *)
Definition load_chain (stored : list Block) (now : datetime) (fuel : nat) : M unit :=
  update_self (set_chain stored);;
  match stored with
  | [] => create_genesis_block now fuel;; save_chain
  | _ =>
      valid ← self_ is_chain_valid;
      if negb valid then
        update (add_dialog (showwarning "Load Warning"
          "Loaded blockchain failed validation. Check data integrity."))
      else mret ()
  end.

(** [Blockchain.__init__] *)
Definition Blockchain_init (difficulty : Z) (now : datetime) (fuel : nat) : M unit :=
  update (set_blockchain (mkBlockchain [] [] difficulty));;
  file ← read disk;
  match file with
  | Some stored => load_chain (unpickled stored) now fuel
  | None => create_genesis_block now fuel;; save_chain
  end.

(** ** [class InventoryApp]: submitting an adjustment *)

(** [InventoryApp.update_inventory_display]. After the header, the
    rows with a quantity above zero are written in sorted order; the
    sort raises on keys of different kinds and the first row whose key
    does not format raises, in both cases before any row is written
    (a [None] key that sorts is the only key). *)
Definition update_inventory_display : M unit :=
  update (set_inventory_display (DisplayText ""));;
  inventory ← get_inventory;
  match inventory with
  | None =>
      update (set_inventory_display (DisplayText
        "Error: Could not validate blockchain.
Inventory data unavailable."));;
      update (set_status_label "Status: Error - Blockchain invalid.")
  | Some inventory =>
      if decide (inventory = ∅) then
        update (set_inventory_display (DisplayText "Warehouse is currently empty."));;
        update (set_status_label "Status: Inventory refreshed.")
      else
        update (set_inventory_display (DisplayTable ∅));;
        let rows := filter (λ kv, 0 < kv.2) inventory in
        if negb (sortable inventory) then raise TypeError
        else if negb (bool_decide (map_Forall (λ k _, formats k = true) rows))
        then raise TypeError
        else
          update (set_inventory_display (DisplayTable rows));;
          update (set_status_label "Status: Inventory refreshed.")
  end.

(** [InventoryApp._add_transaction]; [item_id] is the text of an entry
    widget. *)
Definition _add_transaction (item_id : string) (quantity_change : value)
    (now : datetime) (fuel : nat) : M unit :=
  if String.eqb item_id "" then
    update (add_dialog (showwarning "Input Error" "Please enter an Item ID."))
  else
    match py_int quantity_change with
    | Raise ValueError =>
        update (add_dialog (showwarning "Input Error" "Quantity must be a whole number."))
    | Raise e => raise e
    | Ok change =>
        let submit : M unit :=
          let transaction := VDict [("item_id", VStr item_id); ("change", VInt change)] in
          added ← add_transaction transaction;
          if added : bool then
            mined ← mine_pending_transactions now fuel;
            if mined : bool then
              update (set_status_label
                ("Status: Block mined. Stock for '" +:+ item_id +:+ "' updated."));;
              update_inventory_display;;
              update clear_entries
            else
              update (set_status_label "Status: Transaction added, waiting to be mined.")
          else
            update (add_dialog (showerror "Error" "Failed to add transaction to pending list."));;
            update (set_status_label "Status: Error adding transaction.")
        in
        if change <? 0 then
          current_inventory ← get_inventory;
          match current_inventory with
          | None => update (set_status_label "Status: Error - Cannot validate stock.")
          | Some current_inventory =>
              let current_stock := default 0 (current_inventory !! KStr item_id) in
              if current_stock + change <? 0 then
                update (add_dialog (showerror "Stock Error"
                  ("Cannot remove " +:+ pretty (- change) +:+ " units of '" +:+ item_id
                   +:+ "'. Only " +:+ pretty current_stock +:+ " available.")))
              else submit
          end
        else submit
    end.

(** * Part II: vocabulary of the properties *)

(** A block at rest: its stored hash is the digest of its fields and
    carries the difficulty prefix. *)
Definition sealed (d : Z) (b : Block) : Prop :=
  hash b = calculate_hash b ∧ startswith (hash b) (str_mul "0" d) = true.

(** [b'] differs from [b] at most in nonce and hash. *)
Definition same_content (b b' : Block) : Prop :=
  index b' = index b ∧ timestamp b' = timestamp b ∧
  transactions b' = transactions b ∧ previous_hash b' = previous_hash b.

(** Each block after the first names the hash of its predecessor. *)
Definition linked (c : list Block) : Prop :=
  ∀ i cur prev, c !! S i = Some cur → c !! i = Some prev →
                previous_hash cur = hash prev.

(** What holds of every chain the program builds. *)
Definition chain_ok (d : Z) (c : list Block) : Prop :=
  c ≠ [] ∧ Forall (sealed d) c ∧ linked c.

(** The genesis block and the next block, before sealing. *)
Definition fresh_genesis (now : datetime) : Block :=
  Block_init 0 now (VStr "Genesis Block") "0" 0.

Definition next_block (self : Blockchain) (latest : Block) (now : datetime) : Block :=
  Block_init (index latest + 1) now (VList (pending_transactions self))
             (hash latest) 0.

(** The world after a block [b] has been appended and saved. *)
Definition appended (b : Block) (w : World) : World :=
  let self := blockchain w in
  set_disk (Some (chain self ++ [b]))
    (set_blockchain (mkBlockchain (chain self ++ [b]) [] (difficulty self)) w).

Definition enqueued (transaction : value) (w : World) : World :=
  set_blockchain
    (set_pending_transactions
       (pending_transactions (blockchain w) ++ [transaction]) (blockchain w)) w.

(** The shape test and the [try] block of [add_transaction]. *)
Definition accepts (transaction : value) : bool :=
  match transaction with
  | VDict entries =>
      match dict_get entries "item_id", dict_get entries "change" with
      | Some _, Some change => if py_int change is Ok _ then true else false
      | _, _ => false
      end
  | _ => false
  end.

(** The one way out of [add_transaction] that is neither [True] nor
    [False]: [int] of an infinite float. *)
Definition overflows (transaction : value) : bool :=
  match transaction with
  | VDict entries =>
      match dict_get entries "item_id", dict_get entries "change" with
      | Some _, Some change =>
          if py_int change is Raise OverflowError then true else false
      | _, _ => false
      end
  | _ => false
  end.

Definition invalid_dialog : dialog :=
  showerror "Error" "Blockchain is invalid! Inventory data may be corrupted.".

(** Overwrite the block at position [i], as an edit of the pickled
    chain does. *)
Definition tamper (i : nat) (b' : Block) (self : Blockchain) : Blockchain :=
  set_chain (<[i := b']> (chain self)) self.

(** The 256 characters, as a finite type: a hex digest is one of
    finitely many strings. *)
Definition ascii_of_bits
    (bs : bool * bool * bool * bool * bool * bool * bool * bool) : ascii :=
  let '(b0, b1, b2, b3, b4, b5, b6, b7) := bs in Ascii b0 b1 b2 b3 b4 b5 b6 b7.

#[local] Instance ascii_of_bits_surj : Surj (=) ascii_of_bits.
Proof.
  intros [b0 b1 b2 b3 b4 b5 b6 b7]. by exists (b0, b1, b2, b3, b4, b5, b6, b7).
Qed.

#[local] Instance ascii_finite : Finite ascii := surjective_finite ascii_of_bits.

(** ** States the program reaches *)

(** Nothing to load: there is no pickle file, or it holds an empty
    list. Either way the constructor creates the genesis block. *)
Definition no_persisted_state (w : World) : Prop :=
  disk w = None ∨ disk w = Some [].

(** From a construction with nothing to load, by the public methods of
    [Blockchain]. *)
Inductive reachable : World → Prop :=
  | reachable_init d now fuel w0 w :
      no_persisted_state w0 →
      Blockchain_init d now fuel w0 = Returns () w →
      reachable w
  | reachable_add transaction w r w' :
      reachable w →
      add_transaction transaction w = Returns r w' →
      reachable w'
  | reachable_mine now fuel w r w' :
      reachable w →
      mine_pending_transactions now fuel w = Returns r w' →
      reachable w'
  | reachable_inventory w r w' :
      reachable w →
      get_inventory w = Returns r w' →
      reachable w'.

(** ** The inventory as a sum *)

(** The list the inner loop of [get_inventory] runs over. *)
Definition block_transactions (b : Block) : list value :=
  match transactions b with
  | VDict entries => [VDict entries]
  | VList items => items
  | _ => []
  end.

(** The [(item_id, change)] pair of a transaction that passes the
    shape test of the inner loop. *)
Definition entry (transaction : value) : option (value * value) :=
  match transaction with
  | VDict entries =>
      match dict_get entries "item_id", dict_get entries "change" with
      | Some item_id, Some change => Some (item_id, change)
      | _, _ => None
      end
  | _ => None
  end.

(** Every counted pair of blocks 1..N, in chain order. *)
Definition ledger (c : list Block) : list (value * value) :=
  omap entry (drop 1 c ≫= block_transactions).

(** A pair with its item id as a dict key and its change through
    [int]; [None] when either raises. *)
Definition coerce (e : value * value) : option (key * Z) :=
  match py_int e.2, hash_key e.1 with
  | Ok n, Ok k => Some (k, n)
  | _, _ => None
  end.

Definition coerced_ledger (c : list Block) : list (key * Z) :=
  omap coerce (ledger c).

Definition net_quantity (es : list (key * Z)) (k : key) : Z :=
  foldr (λ e acc, if decide (e.1 = k) then e.2 + acc else acc) 0 es.

Definition add_entry (inventory : gmap key Z) (e : key * Z) : gmap key Z :=
  <[e.1 := default 0 (inventory !! e.1) + e.2]> inventory.

(** The net quantity as the specification words it: the sum of the
    change values themselves, taken as numbers. *)
Definition float_value (f : float) : Q :=
  match f with
  | FFinite neg m e =>
      ((if neg then -1 else 1) * inject_Z (Z.pos m) * Qpower 2 e)%Q
  | _ => 0%Q
  end.

Definition number (v : value) : Q :=
  match v with
  | VInt n => inject_Z n
  | VBool b => if b then 1%Q else 0%Q
  | VFloat f => float_value f
  | _ => 0%Q
  end.

Definition spec_net_quantity (c : list Block) (k : key) : Q :=
  foldr (λ e acc, match hash_key e.1 with
                  | Ok k' => if decide (k' = k) then (number e.2 + acc)%Q else acc
                  | Raise _ => acc
                  end) 0%Q (ledger c).

(** ** A concrete run

    The ledger of the specification's example, at difficulty 1: a fresh
    chain, then [A +10], [A -3] and [B +5] mined into one block. The
    nonces and digests written out below are the ones the model finds
    ([scenario_construct], [scenario_mine]). *)

Module Scenario.

Definition t0 : datetime := mkDatetime 2024 1 1 12 0 0 123456.
Definition t1 : datetime := mkDatetime 2024 1 1 12 0 5 0.
Definition t2 : datetime := mkDatetime 2024 1 1 12 0 9 0.

Definition tx (item_id : string) (change : value) : value :=
  VDict [("item_id", VStr item_id); ("change", change)].

(** Before [Blockchain(...)] runs: no file, no dialog, an empty window. *)
Definition start : World :=
  mkWorld (mkBlockchain [] [] 0) None [] "Status: Ready" (DisplayText "") "" "".

Definition genesis : Block :=
  mkBlock 0 t0 (VStr "Genesis Block") "0" 10
    "0d38320844228fed3a5e88fbcf349db353b32af6b080fd89de7466938f5f4d6c".

Definition batch : list value :=
  [tx "A" (VInt 10); tx "A" (VInt (-3)); tx "B" (VInt 5)].

Definition block1 : Block :=
  mkBlock 1 t1 (VList batch) (hash genesis) 3
    "0aa4b250ccd45561ac8a90b37e070e2e4ce0e3b477da6d685770757a95605c01".

Definition with_chain (c : list Block) (pending : list value) : World :=
  mkWorld (mkBlockchain c pending 1) (Some c) [] "Status: Ready"
          (DisplayText "") "" "".

Definition fresh : World := with_chain [genesis] [].
Definition queued : World :=
  mkWorld (mkBlockchain [genesis] batch 1) (Some [genesis]) []
          "Status: Ready" (DisplayText "") "" "".
Definition mined : World := with_chain [genesis; block1] [].

End Scenario.

Module Tampering.
Import Scenario.

Definition forged_genesis : Block :=
  set_transactions (VStr "Tampered") genesis.

Definition flipped_block1 : Block :=
  set_transactions
    (VList [tx "A" (VInt (-10)); tx "A" (VInt (-3)); tx "B" (VInt 5)]) block1.

End Tampering.

Module DifficultyZero.
Import Scenario.

Definition genesis0 : Block :=
  mkBlock 0 t0 (VStr "Genesis Block") "0" 0
    "f45cc479c8ed579427751b13353821e3728ba6607d29ff24acd8e0b0b5116800".

Definition fresh0 : World :=
  mkWorld (mkBlockchain [genesis0] [] 0) (Some [genesis0]) []
          "Status: Ready" (DisplayText "") "" "".

End DifficultyZero.

Module Corrupted.

(** The pickled chain of the scenario with the first transaction of
    block 1 flipped from [+10] to [-10]. *)
Definition world : World :=
  set_blockchain
    (tamper 1 Tampering.flipped_block1 (blockchain Scenario.mined))
    Scenario.mined.

End Corrupted.

Module FloatLedger.
Import Scenario.

Definition half_units : value := VFloat (FFinite false 7 (-1)).

Definition block1 : Block :=
  mkBlock 1 t1 (VList [tx "A" half_units]) (hash genesis) 15
    "010aa42f56c83aac92b103cf173e05d0b4b77bde35924f987bd468d8ef785de5".

Definition world : World := with_chain [genesis; block1] [].

End FloatLedger.

(** * Part III: properties *)

(** ** The runtime services against known answers *)

Example sha256_constants :
  head SHA256.H0 = Some 0x6a09e667 ∧ last SHA256.H0 = Some 0x5be0cd19 ∧
  head SHA256.K = Some 0x428a2f98 ∧ last SHA256.K = Some 0xc67178f2 ∧
  length SHA256.K = 64%nat.
Proof. repeat split; reflexivity. Qed.

(** The published test vectors for the empty message, ["abc"] and the
    two-block message of FIPS 180-4. *)
Example sha256_empty :
  SHA256.hexdigest "" =
  "e3b0c44298fc1c149afbf4c8996fb92427ae41e4649b934ca495991b7852b855".
Proof. vm_compute. reflexivity. Qed.

Example sha256_abc :
  SHA256.hexdigest "abc" =
  "ba7816bf8f01cfea414140de5dae2223b00361a396177a9cb410ff61f20015ad".
Proof. vm_compute. reflexivity. Qed.

Example sha256_two_blocks :
  SHA256.hexdigest "abcdbcdecdefdefgefghfghighijhijkijkljklmklmnlmnomnopnopq" =
  "248d6a61d20638b8e5c026930c3e6039a33ce45964ff2167f6ecedd419db06c1".
Proof. vm_compute. reflexivity. Qed.

Example py_int_examples :
  py_int (VFloat (FFinite false 7 (-1))) = Ok 3 ∧
  py_int (VFloat (FFinite true 7 (-1))) = Ok (-3) ∧
  py_int (VStr "5") = Ok 5 ∧
  py_int (VStr " -1_000 ") = Ok (-1000) ∧
  py_int (VStr "3.5") = Raise ValueError ∧
  py_int (VStr "") = Raise ValueError ∧
  py_int (VStr "1__0") = Raise ValueError ∧
  py_int (VBool true) = Ok 1 ∧
  py_int VNone = Raise TypeError.
Proof. repeat split; reflexivity. Qed.

Example float_repr_examples :
  FloatRepr.repr (FFinite false 7 (-1)) = "3.5" ∧
  FloatRepr.repr (FFinite true 1 (-2)) = "-0.25" ∧
  FloatRepr.repr (FFinite false 3602879701896397 (-55)) = "0.1" ∧
  FloatRepr.repr (FFinite false 5 1) = "10.0" ∧
  FloatRepr.repr (FFinite false 10000000000000000 0) = "1e+16" ∧
  FloatRepr.repr (FFinite false 1 (-1074)) = "5e-324".
Proof. vm_compute. repeat split; reflexivity. Qed.

Arguments calculate_hash : simpl never.
Arguments SHA256.hexdigest : simpl never.
Arguments Json.dumps : simpl never.
Arguments str_mul : simpl never.

Ltac run_M :=
  unfold mbind, M_bind, mret, M_ret, self_, read, update_self, update,
         raise, lift, run_mine_block; simpl.

(** ** Sealing *)

Section Sealing.

Lemma calculate_hash_set_hash h b :
  calculate_hash (set_hash h b) = calculate_hash b.
Proof. reflexivity. Qed.


Lemma startswith_nil s : startswith s "" = true.
Proof. unfold startswith. by destruct s. Qed.

Lemma str_mul_nonpos s n : n <= 0 → str_mul s n = "".
Proof.
  intros Hn. unfold str_mul.
  replace (Z.to_nat n) with 0%nat by lia. reflexivity.
Qed.

Lemma mine_block_sound fuel d b b' :
  mine_block fuel d b = Some b' →
  startswith (hash b') (str_mul "0" d) = true ∧ same_content b b' ∧
  nonce b <= nonce b' ∧
  (hash b = calculate_hash b → hash b' = calculate_hash b').
Proof.
  revert b. induction fuel as [|fuel IH]; intros b; simpl;
    destruct (startswith (hash b) (str_mul "0" d)) eqn:Hs; try discriminate.
  - intros [= <-]. repeat split; auto; lia.
  - intros [= <-]. repeat split; auto; lia.
  - intros Hm. apply IH in Hm as (Hp & (Hi & Ht & Htx & Hph) & Hn & Hh).
    simpl in *. repeat split; auto; try lia.
Qed.

Lemma set_nonce_same b : set_nonce (nonce b + Z.of_nat 0) b = b.
Proof. destruct b. unfold set_nonce. simpl. f_equal. lia. Qed.

(** The search returns as soon as some nonce within reach of the fuel
    gives a digest with the prefix. *)
Lemma mine_block_complete fuel d b (k : nat) :
  hash b = calculate_hash b →
  (k ≤ fuel)%nat →
  startswith (calculate_hash (set_nonce (nonce b + Z.of_nat k) b))
             (str_mul "0" d) = true →
  ∃ b', mine_block fuel d b = Some b'.
Proof.
  revert b k. induction fuel as [|fuel IH]; intros b k Hh Hk Hs; simpl.
  - assert (k = 0%nat) as -> by lia.
    rewrite set_nonce_same, <- Hh in Hs. rewrite Hs. eauto.
  - destruct (startswith (hash b) (str_mul "0" d)) eqn:Hs0; [eauto|].
    destruct k as [|k].
    + rewrite set_nonce_same, <- Hh in Hs. congruence.
    + apply (IH _ k); [reflexivity | lia |].
      unfold calculate_hash in *. simpl in *.
      by replace (nonce b + 1 + Z.of_nat k) with (nonce b + Z.of_nat (S k)) by lia.
Qed.

(** With no leading zero asked for the loop body never runs. *)
Lemma mine_block_nonpos fuel d b : d <= 0 → mine_block fuel d b = Some b.
Proof.
  intros Hd. destruct fuel; simpl;
    by rewrite (str_mul_nonpos _ _ Hd), startswith_nil.
Qed.

(** *** The digest is 64 characters long, so digests collide *)

Lemma string_length_app (s t : string) :
  String.length (s +:+ t) = (String.length s + String.length t)%nat.
Proof. induction s as [|c s IH]; simpl; [done|]. by rewrite IH. Qed.

Lemma length_list_ascii_of_string (s : string) :
  length (String.list_ascii_of_string s) = String.length s.
Proof. induction s as [|c s IH]; simpl; [done|]. by rewrite IH. Qed.

Lemma compress_length (hs block : list Z) :
  length (SHA256.compress hs block) = 8%nat.
Proof.
  unfold SHA256.compress.
  destruct (fold_left SHA256.round SHA256.K _)
    as [[[[[[[[a b] c] d] e] f] g] h] win].
  reflexivity.
Qed.

Lemma fold_left_length {A} (f : list Z → A → list Z) (n : nat)
    (l : list A) (hs : list Z) :
  (∀ hs x, length (f hs x) = n) →
  length hs = n → length (fold_left f l hs) = n.
Proof.
  intros Hf. revert hs. induction l as [|x l IH]; intros hs Hhs; [exact Hhs|].
  cbn [fold_left]. apply IH, Hf.
Qed.

Lemma digest_words_length (msg : list Z) :
  length (SHA256.digest_words msg) = 8%nat.
Proof.
  unfold SHA256.digest_words. cbv zeta.
  apply (fold_left_length SHA256.compress 8); [apply compress_length|].
  vm_compute. reflexivity.
Qed.

Lemma hex_word_length (x : Z) : String.length (SHA256.hex_word x) = 8%nat.
Proof. reflexivity. Qed.

Lemma hexdigest_length (s : string) :
  String.length (SHA256.hexdigest s) = 64%nat.
Proof.
  unfold SHA256.hexdigest.
  pose proof (digest_words_length (SHA256.bytes_of_string s)) as H.
  destruct (SHA256.digest_words _)
    as [|w0 [|w1 [|w2 [|w3 [|w4 [|w5 [|w6 [|w7 [|]]]]]]]]];
    try discriminate H.
  cbn [fold_right].
  rewrite !string_length_app, !hex_word_length. reflexivity.
Qed.

(** Among the digests of any infinite family of messages two are
    equal: there are more messages than strings of 64 characters. *)
Lemma digest_collision (msg : nat → string) :
  ∃ n1 n2 : nat,
    n1 ≠ n2 ∧ SHA256.hexdigest (msg n1) = SHA256.hexdigest (msg n2).
Proof.
  set (B := { l : list ascii | length l = 64%nat }).
  set (N := card B).
  assert (∀ n, length (String.list_ascii_of_string (SHA256.hexdigest (msg n)))
               = 64%nat) as Hlen.
  { intros n. by rewrite length_list_ascii_of_string, hexdigest_length. }
  pose (f := λ i : fin (S N),
          (String.list_ascii_of_string (SHA256.hexdigest (msg (fin_to_nat i)))
             ↾ Hlen (fin_to_nat i)) : B).
  destruct (finite_pigeonhole f) as (i1 & i2 & Hne & Heq).
  { rewrite fin_card. apply Nat.lt_succ_diag_r. }
  exists (fin_to_nat i1), (fin_to_nat i2). split.
  - intros H. apply Hne. by apply (inj fin_to_nat).
  - apply (f_equal proj1_sig) in Heq. unfold f in Heq. cbn [proj1_sig] in Heq.
    rewrite <- (String.string_of_list_ascii_of_string
                  (SHA256.hexdigest (msg (fin_to_nat i1)))).
    rewrite Heq. apply String.string_of_list_ascii_of_string.
Qed.

Lemma calculate_hash_nonce (b : Block) (n : Z) :
  calculate_hash (set_nonce n b)
  = SHA256.hexdigest
      (Json.dumps (VDict [ ("index", VInt (index b));
                           ("timestamp", VStr (str_datetime (timestamp b)));
                           ("transactions", transactions b);
                           ("previous_hash", VStr (previous_hash b));
                           ("nonce", VInt n) ])).
Proof. reflexivity. Qed.

(** Two nonces give one digest, whatever the other fields are. *)
Lemma nonce_collision (b : Block) :
  ∃ n1 n2 : nat,
    n1 ≠ n2 ∧
    calculate_hash (set_nonce (Z.of_nat n1) b)
    = calculate_hash (set_nonce (Z.of_nat n2) b).
Proof.
  destruct (digest_collision (λ n,
    Json.dumps (VDict [ ("index", VInt (index b));
                        ("timestamp", VStr (str_datetime (timestamp b)));
                        ("transactions", transactions b);
                        ("previous_hash", VStr (previous_hash b));
                        ("nonce", VInt (Z.of_nat n)) ])))
    as (n1 & n2 & Hne & Heq).
  exists n1, n2. split; [done|]. by rewrite !calculate_hash_nonce.
Qed.

End Sealing.

(** ** Validation *)

Section Validation.

Lemma check_block_true d cur prev :
  check_block d cur prev = true ↔
  hash cur = calculate_hash cur ∧ previous_hash cur = hash prev ∧
  startswith (hash cur) (str_mul "0" d) = true.
Proof.
  unfold check_block.
  destruct (String.eqb_spec (hash cur) (calculate_hash cur)); simpl;
    [|by split; [|intros []]].
  destruct (String.eqb_spec (previous_hash cur) (hash prev)); simpl;
    [|by split; [|intros (? & ? & ?)]].
  destruct (startswith (hash cur) (str_mul "0" d)); simpl;
    [done | by split; [|intros (? & ? & ?)]].
Qed.

(** The loop of [is_chain_valid] checks every block after the first
    against its predecessor, and nothing else. *)
Lemma is_chain_valid_true self :
  is_chain_valid self = true ↔
  ∀ i cur prev,
    chain self !! S i = Some cur → chain self !! i = Some prev →
    check_block (difficulty self) cur prev = true.
Proof.
  unfold is_chain_valid. rewrite forallb_forall. split.
  - intros H i cur prev Hc Hp.
    specialize (H (S i)). simpl in H. rewrite Nat.sub_0_r, Hc, Hp in H.
    apply H, in_seq. apply lookup_lt_Some in Hc. lia.
  - intros H x Hx. apply in_seq in Hx.
    destruct x as [|i]; [lia|]. simpl. rewrite Nat.sub_0_r.
    destruct (lookup_lt_is_Some_2 (chain self) (S i)) as [cur Hc]; [lia|].
    destruct (lookup_lt_is_Some_2 (chain self) i) as [prev Hp]; [lia|].
    rewrite Hc, Hp. eauto.
Qed.

(** A chain of one block has no pair to check. *)
Lemma is_chain_valid_singleton g p d :
  is_chain_valid (mkBlockchain [g] p d) = true.
Proof. reflexivity. Qed.

Lemma chain_ok_valid self :
  chain_ok (difficulty self) (chain self) → is_chain_valid self = true.
Proof.
  intros (_ & Hs & Hl). apply is_chain_valid_true. intros i cur prev Hc Hp.
  apply check_block_true.
  rewrite Forall_lookup in Hs. destruct (Hs _ _ Hc). eauto.
Qed.

Lemma linked_snoc c latest b :
  linked c → last c = Some latest → previous_hash b = hash latest →
  linked (c ++ [b]).
Proof.
  intros Hl Hlast Hb i cur prev Hc Hp.
  destruct (decide (S i < length c)%nat) as [Hlt|Hge].
  - rewrite lookup_app_l in Hc by lia. rewrite lookup_app_l in Hp by lia. eauto.
  - apply lookup_lt_Some in Hc as Hlen. rewrite length_app in Hlen. simpl in Hlen.
    assert (S i = length c) as Hi by lia.
    rewrite lookup_app_r in Hc by lia.
    replace (S i - length c)%nat with 0%nat in Hc by lia.
    rewrite lookup_app_l in Hp by lia.
    rewrite last_lookup in Hlast.
    replace (pred (length c)) with i in Hlast by lia.
    simpl in Hc. congruence.
Qed.

Lemma chain_ok_snoc d c latest b :
  chain_ok d c → last c = Some latest → sealed d b →
  previous_hash b = hash latest → chain_ok d (c ++ [b]).
Proof.
  intros (Hne & Hs & Hl) Hlast Hb Hp. split; [|split].
  - by destruct c.
  - apply Forall_app. auto.
  - eauto using linked_snoc.
Qed.

Lemma is_chain_valid_snoc (c : list Block) (p p' : list value) (d : Z)
    (latest b : Block) :
  is_chain_valid (mkBlockchain c p d) = true →
  last c = Some latest →
  hash b = calculate_hash b →
  previous_hash b = hash latest →
  startswith (hash b) (str_mul "0" d) = true →
  is_chain_valid (mkBlockchain (c ++ [b]) p' d) = true.
Proof.
  intros Hv Hlast Hh Hp Hs. rewrite is_chain_valid_true in Hv |- *.
  simpl in *. intros i cur prev Hc Hpr.
  destruct (decide (S i < length c)%nat) as [Hlt|Hge].
  - rewrite lookup_app_l in Hc by lia. rewrite lookup_app_l in Hpr by lia. eauto.
  - apply lookup_lt_Some in Hc as Hlen. rewrite length_app in Hlen. simpl in Hlen.
    rewrite lookup_app_r in Hc by lia.
    replace (S i - length c)%nat with 0%nat in Hc by lia.
    rewrite lookup_app_l in Hpr by lia.
    rewrite last_lookup in Hlast.
    replace (pred (length c)) with i in Hlast by lia.
    simpl in Hc. injection Hc as <-. rewrite Hlast in Hpr. injection Hpr as <-.
    by apply check_block_true.
Qed.

End Validation.

(** ** The methods, one equation each *)

Section Equations.

Lemma Blockchain_init_fresh d now fuel w0 :
  no_persisted_state w0 →
  Blockchain_init d now fuel w0 =
  match mine_block fuel d (fresh_genesis now) with
  | Some g => Returns () (appended g (set_blockchain (mkBlockchain [] [] d) w0))
  | None => OutOfFuel
  end.
Proof.
  intros [Hd|Hd];
    unfold Blockchain_init, load_chain, create_genesis_block, save_chain; run_M;
    rewrite Hd; run_M; by destruct (mine_block fuel d _).
Qed.

Lemma mine_pending_transactions_eq now fuel w :
  mine_pending_transactions now fuel w =
  match pending_transactions (blockchain w) with
  | [] => Returns false w
  | _ =>
      match last (chain (blockchain w)) with
      | None => Raises IndexError w
      | Some latest =>
          match mine_block fuel (difficulty (blockchain w))
                           (next_block (blockchain w) latest now) with
          | Some b => Returns true (appended b w)
          | None => OutOfFuel
          end
      end
  end.
Proof.
  unfold mine_pending_transactions, get_latest_block, save_chain. run_M.
  destruct (pending_transactions (blockchain w)) eqn:Hp; [done|].
  run_M. destruct (last (chain (blockchain w))); run_M; [|done].
  unfold next_block. rewrite Hp.
  by destruct (mine_block fuel _ _).
Qed.

Lemma py_int_exn v e : py_int v = Raise e → e ≠ IndexError.
Proof.
  destruct v as [| | |[]| | |]; simpl; try congruence.
  destruct (PyInt.of_string s); congruence.
Qed.

Lemma add_transaction_eq transaction w :
  add_transaction transaction w =
  if accepts transaction then Returns true (enqueued transaction w)
  else if overflows transaction then Raises OverflowError w
  else Returns false w.
Proof.
  unfold add_transaction, accepts, overflows.
  destruct transaction; try done.
  destruct (dict_get entries "item_id"); [|done].
  destruct (dict_get entries "change") as [change|]; [|done].
  destruct (py_int change) as [n|[]] eqn:Hi; try done.
  by apply py_int_exn in Hi.
Qed.

Lemma get_inventory_eq w :
  get_inventory w =
  if is_chain_valid (blockchain w) then
    match apply_blocks ∅ (drop 1 (chain (blockchain w))) with
    | Ok inventory => Returns (Some inventory) w
    | Raise e => Raises e w
    end
  else Returns None (add_dialog invalid_dialog w).
Proof.
  unfold get_inventory. run_M.
  destruct (is_chain_valid (blockchain w)); simpl; [|done].
  by destruct (apply_blocks _ _).
Qed.

End Equations.

(** ** The concrete run *)

Section ScenarioRuns.

Import Scenario.

Lemma scenario_construct : Blockchain_init 1 t0 64 start = Returns () fresh.
Proof. vm_compute. reflexivity. Qed.

Lemma scenario_enqueue :
  (add_transaction (tx "A" (VInt 10));;
   add_transaction (tx "A" (VInt (-3)));;
   add_transaction (tx "B" (VInt 5))) fresh = Returns true queued.
Proof. vm_compute. reflexivity. Qed.

Lemma scenario_mine : mine_pending_transactions t1 64 queued = Returns true mined.
Proof. vm_compute. reflexivity. Qed.

Lemma scenario_inventory :
  get_inventory mined =
  Returns (Some (<[KStr "A" := 7]> (<[KStr "B" := 5]> ∅))) mined.
Proof. vm_compute. reflexivity. Qed.

(** The chain is the one the program builds from [A +3.5]. *)
Lemma float_ledger_run :
  (add_transaction (tx "A" FloatLedger.half_units);;
   mine_pending_transactions t1 64) fresh = Returns true FloatLedger.world.
Proof. vm_compute. reflexivity. Qed.

End ScenarioRuns.

(** ** Invariant of the reachable states *)

Section Reachability.

Lemma Blockchain_init_ok d now fuel w0 w :
  no_persisted_state w0 →
  Blockchain_init d now fuel w0 = Returns () w →
  difficulty (blockchain w) = d ∧ chain_ok d (chain (blockchain w)) ∧
  ∃ g, chain (blockchain w) = [g] ∧ same_content (fresh_genesis now) g.
Proof.
  intros Hd. rewrite Blockchain_init_fresh by done.
  destruct (mine_block fuel d (fresh_genesis now)) as [g|] eqn:Hm; [|done].
  intros [= <-]. simpl.
  apply mine_block_sound in Hm as (Hp & Hc & _ & Hh).
  split; [done|]. split; [|eauto].
  split; [done|]. split.
  - repeat constructor; auto.
  - by intros [|i] cur prev.
Qed.

Lemma add_transaction_frame transaction w r w' :
  add_transaction transaction w = Returns r w' →
  chain (blockchain w') = chain (blockchain w) ∧
  difficulty (blockchain w') = difficulty (blockchain w).
Proof.
  rewrite add_transaction_eq.
  destruct (accepts transaction); [by intros [= <- <-]|].
  destruct (overflows transaction); [done|]. by intros [= <- <-].
Qed.

Lemma mine_pending_transactions_ok now fuel w r w' :
  chain_ok (difficulty (blockchain w)) (chain (blockchain w)) →
  mine_pending_transactions now fuel w = Returns r w' →
  difficulty (blockchain w') = difficulty (blockchain w) ∧
  chain_ok (difficulty (blockchain w')) (chain (blockchain w')).
Proof.
  intros Hok. rewrite mine_pending_transactions_eq.
  destruct (pending_transactions (blockchain w)); [by intros [= <- <-]|].
  destruct (last (chain (blockchain w))) as [latest|] eqn:Hl; [|done].
  destruct (mine_block fuel _ _) as [b|] eqn:Hm; [|done].
  intros [= <- <-]. simpl. split; [done|].
  apply mine_block_sound in Hm as (Hp & (_ & _ & _ & Hph) & _ & Hh).
  eapply chain_ok_snoc; eauto. split; auto.
Qed.

Lemma get_inventory_frame w r w' :
  get_inventory w = Returns r w' → blockchain w' = blockchain w.
Proof.
  rewrite get_inventory_eq.
  destruct (is_chain_valid (blockchain w)); [|by intros [= <- <-]].
  destruct (apply_blocks _ _); [by intros [= <- <-]|done].
Qed.

Lemma reachable_chain_ok w :
  reachable w →
  chain_ok (difficulty (blockchain w)) (chain (blockchain w)).
Proof.
  induction 1 as [d now fuel w0 w Hd Hi
                 |transaction w r w' _ IH Ha
                 |now fuel w r w' _ IH Hm
                 |w r w' _ IH Hg].
  - by destruct (Blockchain_init_ok _ _ _ _ _ Hd Hi) as (-> & ? & _).
  - by destruct (add_transaction_frame _ _ _ _ Ha) as [-> ->].
  - by destruct (mine_pending_transactions_ok _ _ _ _ _ IH Hm).
  - by rewrite (get_inventory_frame _ _ _ Hg).
Qed.

End Reachability.

(** ** The fold of [get_inventory] *)

Section Projection.

Lemma apply_transaction_skip inventory transaction :
  entry transaction = None →
  apply_transaction inventory transaction = Ok inventory.
Proof.
  unfold entry, apply_transaction. destruct transaction; try done.
  destruct (dict_get entries "item_id"); [|done].
  by destruct (dict_get entries "change").
Qed.

Lemma apply_transaction_entry inventory transaction e kn :
  entry transaction = Some e → coerce e = Some kn →
  apply_transaction inventory transaction = Ok (add_entry inventory kn).
Proof.
  unfold entry, apply_transaction, coerce. destruct transaction; try done.
  destruct (dict_get entries "item_id") as [item_id|]; [|done].
  destruct (dict_get entries "change") as [change|]; [|done].
  intros [= <-]. simpl.
  destruct (py_int change); [|done]. destruct (hash_key item_id); [|done].
  by intros [= <-].
Qed.

Lemma apply_transactions_fold inventory txs :
  Forall (λ e, is_Some (coerce e)) (omap entry txs) →
  apply_transactions inventory txs
  = Ok (foldl add_entry inventory (omap coerce (omap entry txs))).
Proof.
  revert inventory. induction txs as [|t txs IH]; intros inventory Hall; [done|].
  simpl in *. destruct (entry t) as [e|] eqn:He.
  - apply Forall_cons in Hall as [[kn Hkn] Hall].
    rewrite (apply_transaction_entry _ _ _ _ He Hkn). simpl.
    rewrite Hkn. simpl. by apply IH.
  - rewrite (apply_transaction_skip _ _ He). simpl. by apply IH.
Qed.

Lemma apply_block_transactions inventory b :
  apply_block inventory b = apply_transactions inventory (block_transactions b).
Proof. unfold apply_block, block_transactions. by destruct (transactions b). Qed.

Lemma apply_blocks_fold inventory blocks :
  Forall (λ e, is_Some (coerce e)) (omap entry (blocks ≫= block_transactions)) →
  apply_blocks inventory blocks
  = Ok (foldl add_entry inventory
          (omap coerce (omap entry (blocks ≫= block_transactions)))).
Proof.
  revert inventory. induction blocks as [|b blocks IH]; intros inventory Hall;
    [done|].
  simpl in *. rewrite omap_app in Hall. apply Forall_app in Hall as [Hb Hall].
  rewrite apply_block_transactions, (apply_transactions_fold _ _ Hb). simpl.
  rewrite IH by done. by rewrite !omap_app, foldl_app.
Qed.

Lemma apply_transactions_app (inventory : gmap key Z) (l1 l2 : list value) :
  apply_transactions inventory (l1 ++ l2)
  = apply_transactions inventory l1
    ≫= λ inventory', apply_transactions inventory' l2.
Proof.
  revert inventory. induction l1 as [|t l1 IH]; intros inventory; [done|].
  simpl. destruct (apply_transaction inventory t); simpl; [apply IH | done].
Qed.

Lemma apply_blocks_app (inventory : gmap key Z) (l1 l2 : list Block) :
  apply_blocks inventory (l1 ++ l2)
  = apply_blocks inventory l1 ≫= λ inventory', apply_blocks inventory' l2.
Proof.
  revert inventory. induction l1 as [|b l1 IH]; intros inventory; [done|].
  simpl. destruct (apply_block inventory b); simpl; [apply IH | done].
Qed.

Lemma net_quantity_absent es k : k ∉ es.*1 → net_quantity es k = 0.
Proof.
  induction es as [|[k' n] es IH]; [done|]. simpl.
  rewrite not_elem_of_cons. intros [Hne Hk]. case_decide; [done|auto].
Qed.

(** The fold groups the changes by key: a key is present exactly when
    some entry names it, with the sum of that key's changes added to
    what the mapping held. *)
Lemma add_entries_lookup inventory es k :
  foldl add_entry inventory es !! k
  = if decide (k ∈ es.*1)
    then Some (default 0 (inventory !! k) + net_quantity es k)
    else inventory !! k.
Proof.
  revert inventory. induction es as [|[k' n] es IH]; intros inventory; [done|].
  csimpl. rewrite IH. unfold add_entry. simpl.
  destruct (decide (k' = k)) as [->|Hne].
  - rewrite lookup_insert_eq. simpl.
    destruct (decide (k ∈ k :: es.*1)) as [_|[]]; [|by left].
    case_decide as Hk; f_equal; [lia|].
    rewrite net_quantity_absent by done. lia.
  - rewrite lookup_insert_ne by done.
    destruct (decide (k ∈ es.*1)) as [Hk|Hk];
      destruct (decide (k ∈ k' :: es.*1)) as [Hk'|Hk']; try done.
    + destruct Hk'. by right.
    + apply elem_of_cons in Hk' as [?|?]; congruence.
Qed.

Lemma net_quantity_Permutation es es' k :
  es ≡ₚ es' → net_quantity es k = net_quantity es' k.
Proof.
  induction 1 as [|e es es' _ IH|e e' es|es es' es'' _ IH1 _ IH2]; simpl.
  - done.
  - by rewrite IH.
  - repeat case_decide; lia.
  - congruence.
Qed.

Lemma add_entries_Permutation inventory es es' :
  es ≡ₚ es' → foldl add_entry inventory es = foldl add_entry inventory es'.
Proof.
  intros Hp. apply map_eq. intros k. rewrite !add_entries_lookup.
  rewrite (net_quantity_Permutation _ _ k Hp).
  destruct (decide (k ∈ es.*1)) as [Hk|Hk].
  - rewrite decide_True; [done|]. by rewrite <- Hp.
  - rewrite decide_False; [done|]. by rewrite <- Hp.
Qed.

(** Reordering the transactions inside the blocks permutes the ledger. *)
Lemma ledger_blockwise_Permutation c c' :
  Forall2 (λ b b', block_transactions b ≡ₚ block_transactions b')
          (drop 1 c) (drop 1 c') →
  ledger c ≡ₚ ledger c'.
Proof.
  unfold ledger. generalize (drop 1 c) (drop 1 c'). intros l l' Hall.
  apply omap_Permutation.
  induction Hall as [|b b' l l' Hb _ IH]; [done|].
  simpl. by rewrite Hb, IH.
Qed.

End Projection.

(** Each NaN object is an item of its own; the same object met twice
    is one item. *)
Example nan_item_ids_are_keyed_per_object :
  apply_transactions ∅
    [ VDict [("item_id", VFloat (FNaN 1)); ("change", VInt 1)];
      VDict [("item_id", VFloat (FNaN 2)); ("change", VInt 2)] ]
  = Ok (<[KFloat (FNaN 1) := 1]> (<[KFloat (FNaN 2) := 2]> ∅)) ∧
  apply_transactions ∅
    [ VDict [("item_id", VFloat (FNaN 1)); ("change", VInt 1)];
      VDict [("item_id", VFloat (FNaN 1)); ("change", VInt 2)] ]
  = Ok (<[KFloat (FNaN 1) := 3]> ∅).
Proof. split; vm_compute; reflexivity. Qed.

(** ** The claims *)

(** C1, as amended. In a chain that passes validation, changing a block
    at a position after the genesis block while keeping its stored hash
    makes [is_chain_valid] return false exactly when the change alters
    the digest of the block's fields or its [previous_hash]. *)
Theorem tampering_detected (self : Blockchain) (i : nat) (b b' : Block) :
  is_chain_valid self = true →
  chain self !! S i = Some b →
  hash b' = hash b →
  (is_chain_valid (tamper (S i) b' self) = false ↔
   calculate_hash b' ≠ calculate_hash b ∨ previous_hash b' ≠ previous_hash b).
Proof.
  intros Hv Hb Hh.
  assert (S i < length (chain self))%nat as Hlen by (by eapply lookup_lt_Some).
  destruct (lookup_lt_is_Some_2 (chain self) i) as [prev Hp]; [lia|].
  pose proof Hv as Hv0. rewrite is_chain_valid_true in Hv0.
  pose proof (Hv0 _ _ _ Hb Hp) as Hck.
  apply check_block_true in Hck as (Hs & Hl & Hpre).
  split.
  - intros Hf.
    destruct (decide (calculate_hash b' = calculate_hash b)) as [Hc|Hc]; [|by left].
    destruct (decide (previous_hash b' = previous_hash b)) as [Hq|Hq]; [|by right].
    exfalso. apply not_true_iff_false in Hf. apply Hf.
    apply is_chain_valid_true. simpl. intros j cur prv Hcur Hprv.
    destruct (decide (j = i)) as [->|Hji].
    + rewrite list_lookup_insert_eq in Hcur by done. injection Hcur as <-.
      rewrite list_lookup_insert_ne in Hprv by lia.
      assert (prv = prev) as -> by congruence.
      apply check_block_true. rewrite Hh, Hc, Hq. auto.
    + rewrite list_lookup_insert_ne in Hcur by lia.
      destruct (decide (j = S i)) as [->|Hjs].
      * rewrite list_lookup_insert_eq in Hprv by done. injection Hprv as <-.
        pose proof (Hv0 _ _ _ Hcur Hb) as Hck.
        apply check_block_true in Hck as (? & ? & ?).
        apply check_block_true. rewrite Hh. auto.
      * rewrite list_lookup_insert_ne in Hprv by lia. eauto.
  - intros Hd. apply not_true_iff_false. intros Hv'.
    rewrite is_chain_valid_true in Hv'.
    specialize (Hv' i b' prev). simpl in Hv'.
    rewrite list_lookup_insert_eq in Hv' by done.
    rewrite list_lookup_insert_ne in Hv' by lia.
    specialize (Hv' eq_refl Hp). apply check_block_true in Hv' as (Hs' & Hl' & _).
    destruct Hd as [Hd|Hd]; congruence.
Qed.

Lemma tampering_detected_witness :
  is_chain_valid (tamper 1 Tampering.flipped_block1 (blockchain Scenario.mined))
  = false.
Proof.
  apply (proj2 (tampering_detected (blockchain Scenario.mined) 0
                  Scenario.block1 Tampering.flipped_block1
                  ltac:(vm_compute; reflexivity) eq_refl eq_refl)).
  left. vm_compute. discriminate.
Defined.

(** C1, as stated, fails in two ways. At the genesis block: the loop
    starts at position 1, so block 0 is never compared with its own
    digest; its payload is replaced, its stored hash is kept and no
    longer matches its digest, and the chain still validates. After the
    genesis block: a digest is one of finitely many strings, so two
    nonces of a block give the same digest, and replacing one by the
    other in a valid chain leaves it valid. *)
Lemma tampering_undetected :
  (is_chain_valid (blockchain Scenario.mined) = true ∧
   chain (blockchain Scenario.mined) !! 0%nat = Some Scenario.genesis ∧
   Tampering.forged_genesis ≠ Scenario.genesis ∧
   hash Tampering.forged_genesis = hash Scenario.genesis ∧
   calculate_hash Tampering.forged_genesis ≠ hash Tampering.forged_genesis ∧
   is_chain_valid (tamper 0 Tampering.forged_genesis (blockchain Scenario.mined))
   = true) ∧
  ¬ (∀ (self : Blockchain) (i : nat) (b b' : Block),
       is_chain_valid self = true →
       chain self !! S i = Some b →
       hash b' = hash b →
       b' ≠ b →
       is_chain_valid (tamper (S i) b' self) = false).
Proof.
  split.
  { split; [vm_compute; reflexivity|].
    split; [reflexivity|].
    split; [discriminate|].
    split; [reflexivity|].
    split; [vm_compute; discriminate|].
    vm_compute. reflexivity. }
  intros Hclaim.
  pose (b0 := Block_init 1 Scenario.t1 (VList Scenario.batch)
                (hash DifficultyZero.genesis0) 0).
  destruct (nonce_collision b0) as (n1 & n2 & Hne & Heq).
  remember (calculate_hash (set_nonce (Z.of_nat n1) b0)) as h1 eqn:Hh1.
  assert (∀ n, calculate_hash (set_nonce (Z.of_nat n) b0) = h1 →
               is_chain_valid
                 (mkBlockchain [DifficultyZero.genesis0;
                                set_hash h1 (set_nonce (Z.of_nat n) b0)] [] 0)
               = true) as Hvalid.
  { intros n Hn. apply is_chain_valid_true.
    intros [|[|j]] cur prev; simpl; try done.
    intros [= <-] [= <-]. apply check_block_true.
    split; [|split; [reflexivity|]].
    - rewrite calculate_hash_set_hash. symmetry. exact Hn.
    - rewrite str_mul_nonpos by done. apply startswith_nil. }
  specialize (Hclaim _ 0%nat (set_hash h1 (set_nonce (Z.of_nat n1) b0))
                (set_hash h1 (set_nonce (Z.of_nat n2) b0))
                (Hvalid n1 (eq_sym Hh1)) eq_refl eq_refl).
  apply not_true_iff_false in Hclaim.
  - apply Hclaim. apply (Hvalid n2). by rewrite <- Heq.
  - intros E. apply (f_equal nonce) in E. simpl in E. lia.
Qed.

(** C2. After a construction with nothing to load and after every
    call of the public methods that returns, in particular every
    successful [mine_pending_transactions], [is_chain_valid] is true,
    every block's stored hash is the digest of its fields and starts
    with the difficulty prefix, and every block after the first names
    the hash of its predecessor. *)
Theorem reachable_chain_valid w :
  reachable w →
  is_chain_valid (blockchain w) = true ∧
  (∀ b, b ∈ chain (blockchain w) →
        hash b = calculate_hash b ∧
        startswith (hash b) (str_mul "0" (difficulty (blockchain w))) = true) ∧
  (∀ i cur prev,
     chain (blockchain w) !! S i = Some cur →
     chain (blockchain w) !! i = Some prev →
     previous_hash cur = hash prev).
Proof.
  intros Hr. apply reachable_chain_ok in Hr as Hok.
  split; [by apply chain_ok_valid|].
  destruct Hok as (_ & Hs & Hl). split; [|exact Hl].
  intros b Hb. rewrite Forall_forall in Hs. by apply Hs.
Qed.

Lemma reachable_chain_valid_witness :
  reachable Scenario.mined ∧
  is_chain_valid (blockchain Scenario.mined) = true.
Proof.
  assert (reachable Scenario.mined) as Hr.
  { apply (reachable_mine Scenario.t1 64 Scenario.queued true).
    - apply (reachable_add (Scenario.tx "B" (VInt 5))
               (enqueued (Scenario.tx "A" (VInt (-3)))
                  (enqueued (Scenario.tx "A" (VInt 10)) Scenario.fresh)) true).
      + apply (reachable_add (Scenario.tx "A" (VInt (-3)))
                 (enqueued (Scenario.tx "A" (VInt 10)) Scenario.fresh) true).
        * apply (reachable_add (Scenario.tx "A" (VInt 10)) Scenario.fresh true).
          -- apply (reachable_init 1 Scenario.t0 64 Scenario.start).
             ++ left. reflexivity.
             ++ vm_compute. reflexivity.
          -- reflexivity.
        * reflexivity.
      + reflexivity.
    - vm_compute. reflexivity. }
  split; [exact Hr|].
  exact (proj1 (reachable_chain_valid Scenario.mined Hr)).
Defined.

(** C3. With transactions pending, once some nonce within the fuel seals
    the new block, [mine_pending_transactions] returns [True] having
    appended exactly one block: its index is the latest index plus one,
    its transactions are the whole pending queue in order, its
    [previous_hash] is the latest hash, it is sealed at the chain's
    difficulty, the queue is empty afterwards and the chain was saved. *)
Theorem mine_pending_appends_one_block now fuel w latest (k : nat) :
  pending_transactions (blockchain w) ≠ [] →
  last (chain (blockchain w)) = Some latest →
  (k ≤ fuel)%nat →
  startswith
    (calculate_hash (set_nonce (Z.of_nat k) (next_block (blockchain w) latest now)))
    (str_mul "0" (difficulty (blockchain w))) = true →
  ∃ b w',
    mine_pending_transactions now fuel w = Returns true w' ∧
    chain (blockchain w') = chain (blockchain w) ++ [b] ∧
    index b = index latest + 1 ∧
    transactions b = VList (pending_transactions (blockchain w)) ∧
    previous_hash b = hash latest ∧
    hash b = calculate_hash b ∧
    startswith (hash b) (str_mul "0" (difficulty (blockchain w))) = true ∧
    difficulty (blockchain w') = difficulty (blockchain w) ∧
    pending_transactions (blockchain w') = [] ∧
    disk w' = Some (chain (blockchain w')).
Proof.
  intros Hp Hl Hk Hs.
  destruct (mine_block_complete fuel (difficulty (blockchain w))
              (next_block (blockchain w) latest now) k) as [b Hm];
    [reflexivity | exact Hk | exact Hs |].
  exists b, (appended b w). rewrite mine_pending_transactions_eq, Hl, Hm.
  apply mine_block_sound in Hm as (Hpre & (Hi & _ & Htx & Hph) & _ & Hh).
  simpl in Hi, Htx, Hph.
  destruct (pending_transactions (blockchain w)) eqn:Hq; [done|].
  repeat split; auto.
Qed.

Lemma mine_pending_appends_one_block_witness :
  ∃ b w',
    mine_pending_transactions Scenario.t1 64 Scenario.queued = Returns true w' ∧
    chain (blockchain w') = [Scenario.genesis] ++ [b] ∧
    index b = 0 + 1 ∧
    transactions b = VList Scenario.batch ∧
    previous_hash b = hash Scenario.genesis ∧
    hash b = calculate_hash b ∧
    startswith (hash b) (str_mul "0" 1) = true ∧
    difficulty (blockchain w') = 1 ∧
    pending_transactions (blockchain w') = [] ∧
    disk w' = Some (chain (blockchain w')).
Proof.
  apply (mine_pending_appends_one_block
           Scenario.t1 64 Scenario.queued Scenario.genesis 3).
  - discriminate.
  - reflexivity.
  - lia.
  - vm_compute. reflexivity.
Defined.

(** C4, as amended. On a chain that passes validation and whose counted
    transactions all have a hashable item id and a change [int]
    accepts, [get_inventory] returns a mapping that holds exactly the
    item ids that occur in blocks 1..N, each with the sum of [int] of
    its changes, whatever the sign of that sum; and a valid chain whose
    blocks hold the same transactions in another order gives the same
    mapping. *)
Theorem inventory_sums_coerced_changes w :
  is_chain_valid (blockchain w) = true →
  Forall (λ e, is_Some (coerce e)) (ledger (chain (blockchain w))) →
  ∃ inventory,
    get_inventory w = Returns (Some inventory) w ∧
    (∀ k, inventory !! k =
          if decide (k ∈ (coerced_ledger (chain (blockchain w))).*1)
          then Some (net_quantity (coerced_ledger (chain (blockchain w))) k)
          else None) ∧
    (∀ w2,
       is_chain_valid (blockchain w2) = true →
       Forall2 (λ b b2, block_transactions b ≡ₚ block_transactions b2)
               (drop 1 (chain (blockchain w))) (drop 1 (chain (blockchain w2))) →
       get_inventory w2 = Returns (Some inventory) w2).
Proof.
  intros Hv Hall.
  exists (foldl add_entry ∅ (coerced_ledger (chain (blockchain w)))).
  split; [|split].
  - rewrite get_inventory_eq, Hv. by rewrite apply_blocks_fold.
  - intros k. rewrite add_entries_lookup, lookup_empty. simpl.
    case_decide; [f_equal; lia | done].
  - intros w2 Hv2 Hperm. apply ledger_blockwise_Permutation in Hperm.
    rewrite get_inventory_eq, Hv2. rewrite apply_blocks_fold.
    + do 2 f_equal. apply add_entries_Permutation.
      unfold coerced_ledger. by rewrite Hperm.
    + fold (ledger (chain (blockchain w2))). by rewrite <- Hperm.
Qed.

Lemma inventory_sums_coerced_changes_witness :
  ∃ inventory,
    get_inventory Scenario.mined = Returns (Some inventory) Scenario.mined ∧
    (∀ k, inventory !! k =
          if decide (k ∈ (coerced_ledger (chain (blockchain Scenario.mined))).*1)
          then Some (net_quantity
                       (coerced_ledger (chain (blockchain Scenario.mined))) k)
          else None) ∧
    (∀ w2,
       is_chain_valid (blockchain w2) = true →
       Forall2 (λ b b2, block_transactions b ≡ₚ block_transactions b2)
               (drop 1 (chain (blockchain Scenario.mined)))
               (drop 1 (chain (blockchain w2))) →
       get_inventory w2 = Returns (Some inventory) w2).
Proof.
  apply (inventory_sums_coerced_changes Scenario.mined).
  - vm_compute. reflexivity.
  - refine (bool_decide_unpack _ _). vm_compute. exact I.
Defined.

(** C4, as stated, fails on a change that is not an integer: the chain
    built from the single submission [A +3.5] validates, the change
    values of [A] sum to 7/2, and the inventory holds 3. *)
Lemma float_change_not_summed :
  is_chain_valid (blockchain FloatLedger.world) = true ∧
  get_inventory FloatLedger.world
  = Returns (Some {[KStr "A" := 3]}) FloatLedger.world ∧
  (spec_net_quantity (chain (blockchain FloatLedger.world)) (KStr "A") == 7 # 2)%Q ∧
  ¬ (inject_Z 3 == 7 # 2)%Q.
Proof.
  split; [vm_compute; reflexivity|].
  split; [vm_compute; reflexivity|].
  split; [vm_compute; reflexivity|].
  vm_compute. discriminate.
Qed.

(** C5. On a chain that fails validation [get_inventory] returns [None]
    (after the error box) and nothing else; a mapping, or an exception
    from the fold over the transactions, is only ever produced on a
    chain that passed validation. *)
Theorem invalid_chain_no_inventory w :
  (is_chain_valid (blockchain w) = false →
   get_inventory w = Returns None (add_dialog invalid_dialog w)) ∧
  (∀ inventory w',
     get_inventory w = Returns (Some inventory) w' →
     is_chain_valid (blockchain w) = true ∧
     apply_blocks ∅ (drop 1 (chain (blockchain w))) = Ok inventory ∧ w' = w) ∧
  (∀ e w',
     get_inventory w = Raises e w' → is_chain_valid (blockchain w) = true).
Proof.
  rewrite get_inventory_eq.
  destruct (is_chain_valid (blockchain w)); repeat split; try done.
  - destruct (apply_blocks _ _); congruence.
  - destruct (apply_blocks _ _); congruence.
Qed.

Lemma invalid_chain_no_inventory_witness :
  get_inventory Corrupted.world
  = Returns None (add_dialog invalid_dialog Corrupted.world).
Proof.
  apply (proj1 (invalid_chain_no_inventory Corrupted.world)).
  vm_compute. reflexivity.
Defined.

(** C6. A submission with a negative change that would take the item's
    stock, as [get_inventory] gives it for the current chain, below zero
    is turned down with a message box and nothing else: nothing is
    enqueued or mined, so the blockchain object, hence the chain length,
    the pending queue and the inventory, is as before. For an item id
    that is not empty the box is the "Stock Error" one. *)
Theorem insufficient_stock_rejected
    item_id quantity_change change now fuel w inventory :
  py_int quantity_change = Ok change →
  change < 0 →
  get_inventory w = Returns (Some inventory) w →
  default 0 (inventory !! KStr item_id) + change < 0 →
  ∃ box,
    let w' := add_dialog box w in
    _add_transaction item_id quantity_change now fuel w = Returns () w' ∧
    (item_id ≠ "" →
     box = showerror "Stock Error"
             ("Cannot remove " +:+ pretty (- change) +:+ " units of '"
              +:+ item_id +:+ "'. Only "
              +:+ pretty (default 0 (inventory !! KStr item_id))
              +:+ " available.")) ∧
    blockchain w' = blockchain w ∧
    length (chain (blockchain w')) = length (chain (blockchain w)) ∧
    pending_transactions (blockchain w') = pending_transactions (blockchain w) ∧
    disk w' = disk w ∧
    get_inventory w' = Returns (Some inventory) w'.
Proof.
  intros Hq Hneg Hinv Hstock.
  assert (∀ box, get_inventory (add_dialog box w)
                 = Returns (Some inventory) (add_dialog box w)) as Hsame.
  { intros box. rewrite get_inventory_eq in Hinv |- *. simpl.
    destruct (is_chain_valid (blockchain w)); [|done].
    destruct (apply_blocks _ _); [|done]. by injection Hinv as ->. }
  unfold _add_transaction.
  destruct (String.eqb_spec item_id "") as [->|Hid].
  - eexists. cbv zeta. split; [reflexivity|]. by repeat split.
  - eexists. cbv zeta. split; [|by repeat split].
    rewrite Hq. destruct (Z.ltb_spec change 0); [|lia].
    run_M. rewrite Hinv.
    destruct (Z.ltb_spec (default 0 (inventory !! KStr item_id) + change) 0);
      [reflexivity | lia].
Qed.

Lemma insufficient_stock_rejected_witness :
  ∃ box,
    let w' := add_dialog box Scenario.mined in
    _add_transaction "A" (VInt (-8)) Scenario.t2 64 Scenario.mined
    = Returns () w' ∧
    ("A" ≠ "" →
     box = showerror "Stock Error"
             ("Cannot remove " +:+ pretty (- -8) +:+ " units of '"
              +:+ "A" +:+ "'. Only "
              +:+ pretty (default 0 ((<[KStr "A" := 7]> (<[KStr "B" := 5]> ∅)
                                        : gmap key Z) !! KStr "A"))
              +:+ " available.")) ∧
    blockchain w' = blockchain Scenario.mined ∧
    length (chain (blockchain w')) = length (chain (blockchain Scenario.mined)) ∧
    pending_transactions (blockchain w')
    = pending_transactions (blockchain Scenario.mined) ∧
    disk w' = disk Scenario.mined ∧
    get_inventory w'
    = Returns (Some (<[KStr "A" := 7]> (<[KStr "B" := 5]> ∅))) w'.
Proof.
  apply (insufficient_stock_rejected "A" (VInt (-8)) (-8)).
  - reflexivity.
  - lia.
  - vm_compute. reflexivity.
  - vm_compute. reflexivity.
Defined.

(** C7, as amended. [add_transaction] returns [True] exactly for a dict
    that has an ['item_id'] and a ['change'] entry whose change [int]
    accepts, and then appends that very dict to the pending queue; the
    item id is not inspected. When it returns [False], and also when
    [int] raises past its [except] clauses, the world is unchanged. *)
Theorem add_transaction_accepts_iff transaction w :
  (∀ entries item_id change n,
     transaction = VDict entries →
     dict_get entries "item_id" = Some item_id →
     dict_get entries "change" = Some change →
     py_int change = Ok n →
     add_transaction transaction w = Returns true (enqueued transaction w)) ∧
  (∀ w',
     add_transaction transaction w = Returns true w' →
     w' = enqueued transaction w ∧
     ∃ entries item_id change n,
       transaction = VDict entries ∧
       dict_get entries "item_id" = Some item_id ∧
       dict_get entries "change" = Some change ∧
       py_int change = Ok n) ∧
  (∀ w', add_transaction transaction w = Returns false w' → w' = w) ∧
  (∀ e w', add_transaction transaction w = Raises e w' → w' = w) ∧
  add_transaction transaction w ≠ OutOfFuel.
Proof.
  rewrite add_transaction_eq. repeat split.
  - intros entries item_id change n -> Hi Hc Hn.
    unfold accepts. by rewrite Hi, Hc, Hn.
  - destruct (accepts transaction); [congruence|].
    destruct (overflows transaction); congruence.
  - destruct (accepts transaction) eqn:Ha.
    + unfold accepts in Ha. destruct transaction; try done.
      destruct (dict_get entries "item_id") eqn:Hi; [|done].
      destruct (dict_get entries "change") as [change|] eqn:Hc; [|done].
      destruct (py_int change) eqn:Hn; [|done]. eauto 10.
    + destruct (overflows transaction); congruence.
  - destruct (accepts transaction); [congruence|].
    destruct (overflows transaction); congruence.
  - destruct (accepts transaction); [congruence|].
    destruct (overflows transaction); congruence.
  - destruct (accepts transaction); [congruence|].
    destruct (overflows transaction); congruence.
Qed.

Lemma add_transaction_accepts_iff_witness :
  add_transaction (Scenario.tx "A" (VStr "5")) Scenario.fresh
  = Returns true (enqueued (Scenario.tx "A" (VStr "5")) Scenario.fresh).
Proof.
  apply (proj1 (add_transaction_accepts_iff _ Scenario.fresh)
           [("item_id", VStr "A"); ("change", VStr "5")] (VStr "A") (VStr "5") 5);
    reflexivity.
Defined.

(** C7, as stated, fails on an empty item id: the transaction is
    accepted and sits in the pending queue. *)
Lemma empty_item_id_accepted :
  add_transaction (Scenario.tx "" (VInt 1)) Scenario.fresh
  = Returns true
      (set_blockchain
         (mkBlockchain [Scenario.genesis] [Scenario.tx "" (VInt 1)] 1)
         Scenario.fresh).
Proof. reflexivity. Qed.

(** C8. With nothing pending, [mine_pending_transactions] returns
    [False] instead of raising, and changes nothing at all. *)
Theorem mine_pending_nothing_to_mine now fuel w :
  pending_transactions (blockchain w) = [] →
  mine_pending_transactions now fuel w = Returns false w.
Proof. intros Hp. by rewrite mine_pending_transactions_eq, Hp. Qed.

Lemma mine_pending_nothing_to_mine_witness :
  mine_pending_transactions Scenario.t2 0 Scenario.mined
  = Returns false Scenario.mined.
Proof. apply mine_pending_nothing_to_mine. reflexivity. Defined.

(** C9. At difficulty 0 [mine_block] returns the block as it is,
    whatever the fuel: the loop body never runs. A block built by
    [Block] keeps nonce 0 and a stored hash equal to its digest;
    construction and mining return with no fuel at all; and every block
    of a chain built at difficulty 0, the genesis block included, has
    nonce 0. *)
Theorem difficulty_zero_seals_at_once :
  (∀ fuel b, mine_block fuel 0 b = Some b) ∧
  (∀ fuel i t txs p,
     ∃ b, mine_block fuel 0 (Block_init i t txs p 0) = Some b ∧
          nonce b = 0 ∧ hash b = calculate_hash b) ∧
  (∀ now w0, no_persisted_state w0 →
             ∃ w, Blockchain_init 0 now 0 w0 = Returns () w) ∧
  (∀ now w, reachable w → difficulty (blockchain w) = 0 →
            ∃ r w', mine_pending_transactions now 0 w = Returns r w') ∧
  (∀ w, reachable w → difficulty (blockchain w) = 0 →
        ∀ b, b ∈ chain (blockchain w) → nonce b = 0 ∧ hash b = calculate_hash b).
Proof.
  split; [|split; [|split; [|split]]].
  - intros fuel b. by apply mine_block_nonpos.
  - intros fuel i t txs p. eexists. split; [by apply mine_block_nonpos|done].
  - intros now w0 Hd. rewrite Blockchain_init_fresh by done.
    rewrite mine_block_nonpos by done. eauto.
  - intros now w Hr Hd. rewrite mine_pending_transactions_eq.
    destruct (pending_transactions (blockchain w)); [eauto|].
    apply reachable_chain_ok in Hr as (Hne & _).
    destruct (last (chain (blockchain w))) as [latest|] eqn:Hl.
    + rewrite Hd, mine_block_nonpos by done. eauto.
    + apply last_None in Hl. done.
  - intros w Hr Hd b Hb. split.
    2:{ apply reachable_chain_ok in Hr as (_ & Hs & _).
        rewrite Forall_forall in Hs. by apply Hs. }
    revert Hd b Hb.
    induction Hr as [d now fuel w0 w Hdisk Hi
                    |transaction w r w' _ IH Ha
                    |now fuel w r w' _ IH Hm
                    |w r w' _ IH Hg]; intros Hd b Hb.
    + rewrite Blockchain_init_fresh in Hi by done.
      destruct (mine_block fuel d _) as [g|] eqn:Hm; [|done].
      injection Hi as <-. simpl in *. subst d.
      rewrite mine_block_nonpos in Hm by done. injection Hm as <-.
      apply list_elem_of_singleton in Hb as ->. reflexivity.
    + destruct (add_transaction_frame _ _ _ _ Ha) as [Hc Hdd].
      rewrite Hc in Hb. rewrite Hdd in Hd. auto.
    + rewrite mine_pending_transactions_eq in Hm.
      destruct (pending_transactions (blockchain w)); [injection Hm as <- <-; auto|].
      destruct (last (chain (blockchain w))) as [latest|]; [|done].
      destruct (mine_block fuel _ _) as [nb|] eqn:Hnb; [|done].
      injection Hm as <- <-. simpl in *. rewrite Hd in Hnb.
      rewrite mine_block_nonpos in Hnb by done. injection Hnb as <-.
      apply elem_of_app in Hb as [Hb|Hb]; [auto|].
      apply list_elem_of_singleton in Hb as ->. reflexivity.
    + rewrite (get_inventory_frame _ _ _ Hg) in *. auto.
Qed.

Lemma difficulty_zero_seals_at_once_witness :
  nonce DifficultyZero.genesis0 = 0 ∧
  hash DifficultyZero.genesis0 = calculate_hash DifficultyZero.genesis0.
Proof.
  apply (proj2 (proj2 (proj2 (proj2 difficulty_zero_seals_at_once)))
           DifficultyZero.fresh0).
  - apply (reachable_init 0 Scenario.t0 0 Scenario.start).
    + left. reflexivity.
    + vm_compute. reflexivity.
  - reflexivity.
  - apply list_elem_of_singleton. reflexivity.
Defined.

(** C10. A transaction whose change is anything [int] accepts, a float
    such as 3.5 or a numeric string such as "5" included, is enqueued as
    it was given; once a nonce within the fuel seals the block, mining
    returns with the whole queue, and with it that same value, as the
    transactions of the new block; and [get_inventory] on the new chain
    holds the item's quantity raised by [int] of the change. [int] of a
    finite float drops the fraction: the magnitude is the integer part
    of [m * 2^e] and the sign is put back, so 3.5 counts as 3 and -3.5
    as -3. *)
Theorem uncoerced_change_stored_then_truncated
    (item_id change : value) (n : Z) (k : key) (now : datetime) (fuel : nat)
    (w : World) (latest : Block) (inventory inventory' : gmap key Z) (j : nat) :
  py_int change = Ok n →
  hash_key item_id = Ok k →
  get_inventory w = Returns (Some inventory) w →
  apply_transactions inventory (pending_transactions (blockchain w))
  = Ok inventory' →
  last (chain (blockchain w)) = Some latest →
  (j ≤ fuel)%nat →
  startswith
    (calculate_hash
       (set_nonce (Z.of_nat j)
          (next_block
             (blockchain
                (enqueued (VDict [("item_id", item_id); ("change", change)]) w))
             latest now)))
    (str_mul "0" (difficulty (blockchain w))) = true →
  (∃ b w2,
     add_transaction (VDict [("item_id", item_id); ("change", change)]) w
     = Returns true
         (enqueued (VDict [("item_id", item_id); ("change", change)]) w) ∧
     pending_transactions
       (blockchain
          (enqueued (VDict [("item_id", item_id); ("change", change)]) w))
     = pending_transactions (blockchain w)
       ++ [VDict [("item_id", item_id); ("change", change)]] ∧
     mine_pending_transactions now fuel
       (enqueued (VDict [("item_id", item_id); ("change", change)]) w)
     = Returns true w2 ∧
     chain (blockchain w2) = chain (blockchain w) ++ [b] ∧
     transactions b
     = VList (pending_transactions (blockchain w)
              ++ [VDict [("item_id", item_id); ("change", change)]]) ∧
     get_inventory w2
     = Returns (Some (<[k := default 0 (inventory' !! k) + n]> inventory')) w2) ∧
  (∀ neg m e,
     py_int (VFloat (FFinite neg m e)) = Ok (PyInt.trunc neg m e) ∧
     PyInt.trunc true m e = - PyInt.trunc false m e ∧
     (0 <= e → PyInt.trunc false m e = Z.pos m * 2 ^ e) ∧
     (e < 0 →
      PyInt.trunc false m e * 2 ^ (- e) <= Z.pos m
      < (PyInt.trunc false m e + 1) * 2 ^ (- e))) ∧
  py_int (VFloat (FFinite false 7 (-1))) = Ok 3 ∧
  py_int (VFloat (FFinite true 7 (-1))) = Ok (-3) ∧
  py_int (VStr "5") = Ok 5.
Proof.
  intros Hn Hk Hinv Hpend Hlast Hj Hs.
  set (transaction := VDict [("item_id", item_id); ("change", change)]) in *.
  assert (accepts transaction = true) as Ha.
  { unfold accepts, transaction. simpl. by rewrite Hn. }
  split; [|split; [|done]].
  - destruct (mine_block_complete fuel (difficulty (blockchain w))
                (next_block (blockchain (enqueued transaction w)) latest now) j)
      as [b Hm]; [reflexivity | exact Hj | exact Hs |].
    exists b, (appended b (enqueued transaction w)).
    split; [by rewrite add_transaction_eq, Ha|]. split; [done|].
    pose proof Hm as Hsound.
    apply mine_block_sound in Hsound as (Hpre & (_ & _ & Htx & Hph) & _ & Hh).
    specialize (Hh eq_refl). simpl in Htx, Hph.
    split.
    { rewrite mine_pending_transactions_eq. simpl.
      destruct (pending_transactions (blockchain w) ++ [transaction]) eqn:Hq.
      { by destruct (pending_transactions (blockchain w)). }
      rewrite <- Hq, Hlast. simpl in Hm. by rewrite Hm. }
    split; [done|]. split; [done|].
    rewrite get_inventory_eq in Hinv |- *. simpl.
    destruct (is_chain_valid (blockchain w)) eqn:Hv; [|done].
    destruct (apply_blocks ∅ (drop 1 (chain (blockchain w)))) as [inv0|] eqn:Hab;
      [|done].
    injection Hinv as ->.
    destruct (blockchain w) as [c p d] eqn:Hbc. simpl in *.
    rewrite (is_chain_valid_snoc c p [] d latest b Hv Hlast Hh Hph Hpre).
    assert (drop 1 (c ++ [b]) = drop 1 c ++ [b]) as ->.
    { destruct c; [done|reflexivity]. }
    rewrite apply_blocks_app, Hab. simpl.
    rewrite apply_block_transactions. unfold block_transactions. rewrite Htx.
    rewrite apply_transactions_app, Hpend. simpl.
    unfold transaction at 1. simpl. rewrite Hn, Hk. reflexivity.
  - intros neg m e. split; [done|]. unfold PyInt.trunc.
    split; [done|]. split.
    + intros He. destruct (Z.leb_spec 0 e); [|lia].
      by rewrite Z.shiftl_mul_pow2.
    + intros He. destruct (Z.leb_spec 0 e); [lia|].
      rewrite Z.shiftr_div_pow2 by lia.
      assert (0 < 2 ^ (- e)) by (apply Z.pow_pos_nonneg; lia).
      pose proof (Z.mul_div_le (Z.pos m) (2 ^ (- e))).
      pose proof (Z.mul_succ_div_gt (Z.pos m) (2 ^ (- e))).
      nia.
Qed.

(** The run of the theorem on [A +3.5]: the block sealed with nonce 15
    holds the float itself and the inventory holds 3. *)
Lemma uncoerced_change_stored_then_truncated_witness :
  ∃ b w2,
    add_transaction
      (VDict [("item_id", VStr "A"); ("change", FloatLedger.half_units)])
      Scenario.fresh
    = Returns true
        (enqueued
           (VDict [("item_id", VStr "A"); ("change", FloatLedger.half_units)])
           Scenario.fresh) ∧
    pending_transactions
      (blockchain
         (enqueued
            (VDict [("item_id", VStr "A"); ("change", FloatLedger.half_units)])
            Scenario.fresh))
    = pending_transactions (blockchain Scenario.fresh)
      ++ [VDict [("item_id", VStr "A"); ("change", FloatLedger.half_units)]] ∧
    mine_pending_transactions Scenario.t1 64
      (enqueued
         (VDict [("item_id", VStr "A"); ("change", FloatLedger.half_units)])
         Scenario.fresh)
    = Returns true w2 ∧
    chain (blockchain w2) = chain (blockchain Scenario.fresh) ++ [b] ∧
    transactions b
    = VList (pending_transactions (blockchain Scenario.fresh)
             ++ [VDict [("item_id", VStr "A");
                        ("change", FloatLedger.half_units)]]) ∧
    get_inventory w2
    = Returns (Some (<[KStr "A" := default 0 ((∅ : gmap key Z) !! KStr "A") + 3]>
                       (∅ : gmap key Z))) w2.
Proof.
  refine (proj1 (uncoerced_change_stored_then_truncated
                   (VStr "A") FloatLedger.half_units 3 (KStr "A")
                   Scenario.t1 64 Scenario.fresh Scenario.genesis ∅ ∅ 15
                   _ _ _ _ _ _ _)).
  - reflexivity.
  - reflexivity.
  - vm_compute. reflexivity.
  - reflexivity.
  - reflexivity.
  - lia.
  - vm_compute. reflexivity.
Defined.

(** ** Further properties of sealing and validation *)

Section SealingBounds.

Lemma prefix_length (p s : string) :
  String.prefix p s = true → (String.length p ≤ String.length s)%nat.
Proof.
  revert s. induction p as [|c p IH]; intros s; simpl; [lia|].
  destruct s as [|c' s]; simpl; [done|].
  destruct (ascii_dec c c'); [|done]. intros H%IH. lia.
Qed.

Lemma concat_zeros_length (k : nat) :
  String.length (String.concat "" (replicate k "0")) = k.
Proof.
  induction k as [|k IH]; [done|].
  destruct k as [|k]; [done|].
  change (String.concat "" (replicate (S (S k)) "0"))
    with (String "0" (String.concat "" (replicate (S k) "0"))).
  cbn [String.length]. by rewrite IH.
Qed.

Lemma str_mul_length (n : Z) : String.length (str_mul "0" n) = Z.to_nat n.
Proof. apply concat_zeros_length. Qed.

Lemma calculate_hash_length (b : Block) :
  String.length (calculate_hash b) = 64%nat.
Proof. unfold calculate_hash. cbv zeta. apply hexdigest_length. Qed.

Lemma long_target_never_met (d : Z) (b : Block) :
  64 < d → hash b = calculate_hash b →
  startswith (hash b) (str_mul "0" d) = false.
Proof.
  intros Hd Hh. apply not_true_iff_false. intros Hp.
  apply prefix_length in Hp.
  rewrite str_mul_length, Hh, calculate_hash_length in Hp. lia.
Qed.

Lemma mine_block_above_64 (fuel : nat) (d : Z) (b : Block) :
  64 < d → hash b = calculate_hash b → mine_block fuel d b = None.
Proof.
  intros Hd. revert b. induction fuel as [|fuel IH]; intros b Hh; simpl;
    rewrite (long_target_never_met d b Hd Hh); [done|].
  apply IH. reflexivity.
Qed.

End SealingBounds.

(** X1: a digest has 64 characters, so with a difficulty above 64 the
    loop of [mine_block] never finds its prefix, whatever the fuel: a
    block whose [hash] is its digest is never sealed, [Blockchain(...)]
    without a stored chain never finishes creating the genesis block, and
    [mine_pending_transactions] with something pending never returns. *)
Theorem difficulty_above_64_never_seals (d : Z) :
  64 < d →
  (∀ (fuel : nat) (b : Block),
     hash b = calculate_hash b → mine_block fuel d b = None) ∧
  (∀ (now : datetime) (fuel : nat) (w0 : World),
     no_persisted_state w0 → Blockchain_init d now fuel w0 = OutOfFuel) ∧
  (∀ (now : datetime) (fuel : nat) (w : World) (latest : Block),
     difficulty (blockchain w) = d →
     pending_transactions (blockchain w) ≠ [] →
     last (chain (blockchain w)) = Some latest →
     mine_pending_transactions now fuel w = OutOfFuel).
Proof.
  intros Hd. split; [|split].
  - intros fuel b Hh. by apply mine_block_above_64.
  - intros now fuel w0 Hw. rewrite Blockchain_init_fresh by done.
    by rewrite mine_block_above_64.
  - intros now fuel w latest Hdw Hp Hl. rewrite mine_pending_transactions_eq.
    destruct (pending_transactions (blockchain w)); [done|].
    rewrite Hl, Hdw. by rewrite mine_block_above_64.
Qed.

Lemma difficulty_above_64_never_seals_witness :
  Blockchain_init 65 Scenario.t0 1000 Scenario.start = OutOfFuel.
Proof.
  apply (proj1 (proj2 (difficulty_above_64_never_seals 65 ltac:(lia)))).
  left. reflexivity.
Defined.

(** X2: [is_chain_valid] looks only at the blocks that are there and at
    their predecessors, so a valid chain cut down to its first [n]
    blocks is still valid: dropping the latest blocks is not noticed. *)
Theorem truncated_chain_still_valid (self : Blockchain) (n : nat) :
  is_chain_valid self = true →
  is_chain_valid (set_chain (take n (chain self)) self) = true.
Proof.
  rewrite !is_chain_valid_true. simpl. intros Hv i cur prev Hc Hp.
  apply lookup_take_Some in Hc as [Hc _].
  apply lookup_take_Some in Hp as [Hp _].
  eauto.
Qed.

Lemma truncated_chain_still_valid_witness :
  is_chain_valid (set_chain (take 1 (chain (blockchain Scenario.mined)))
                    (blockchain Scenario.mined)) = true.
Proof.
  apply truncated_chain_still_valid. vm_compute. reflexivity.
Defined.

(** X3: appending blocks never repairs a chain: once [is_chain_valid]
    is false it stays false however the chain is extended. *)
Theorem extended_chain_stays_invalid (self : Blockchain) (more : list Block) :
  is_chain_valid self = false →
  is_chain_valid (set_chain (chain self ++ more) self) = false.
Proof.
  intros Hf. apply not_true_iff_false. intros Hv.
  apply not_true_iff_false in Hf. apply Hf.
  rewrite is_chain_valid_true in Hv |- *. simpl in Hv.
  intros i cur prev Hc Hp. apply (Hv i).
  - by apply lookup_app_l_Some.
  - by apply lookup_app_l_Some.
Qed.

Lemma extended_chain_stays_invalid_witness :
  is_chain_valid
    (set_chain (chain (blockchain Corrupted.world) ++ [FloatLedger.block1])
       (blockchain Corrupted.world)) = false.
Proof.
  apply extended_chain_stays_invalid. vm_compute. reflexivity.
Defined.


